(** * PostWave: the client-side media composition pipeline

    A shallow embedding of the new-post pipeline of the browser client
    (file selection and downscaling, per-index crop data, reordering,
    crop interaction, preview recomputation, submission), followed by
    the statements proved about it.

    Conventions of the embedding.
    - JavaScript numbers are IEEE 754 doubles.  Every finite double is a
      rational, so the numbers that carry geometry are values of [Q];
      equalities between computed numbers are stated with [==].  The
      modules [Preview] and [CropModal] compute on them with the exact
      operations of [Q]: that is the result of the code wherever no
      operation rounds (every intermediate value is a double, as in the
      examples stated there) and for statements about comparisons and
      signs.  The modules [Render] and [OpenModal] repeat the
      preview recomputation and the default box of the modal with every
      product, quotient, sum and difference rounded to binary64
      ([Binary64.fl]), for the statements that rounding decides.
    - Byte sizes, pixel dimensions of decoded images and canvas
      dimensions are integers [Z].  Positions in the selection are [nat].
    - The three free-floating variables [selectedFiles], [cropData] and
      [currentCarouselIndex] become one record that every handler takes
      and returns.
    - What the browser decides (whether an image decodes and with which
      dimensions, whether [canvas.toBlob] yields a blob and of what size)
      is a parameter of the handlers.
    - The handlers run to completion one after the other, as the event
      loop runs them. *)

From Stdlib Require Import QArith Qminmax Qround Qabs Qpower Lqa.
From Stdlib Require Import String Ascii.
From Stdlib Require SpecFloat.
From stdpp Require Import gmap strings list fin_maps.

Local Open Scope string_scope.
Local Open Scope list_scope.

(** ** Data model *)

(** A number read out of a JavaScript object: a missing property reads
    as [undefined]. *)
Inductive JsVal :=
| JUndefined
| JBool (b : bool)
| JNum (q : Q).

(** What a canvas was asked to draw before it was encoded. *)
Inductive DrawCall :=
| DrawWhole (dw dh : Q)
    (* ctx.drawImage(img, 0, 0, dw, dh) *)
| DrawRegion (sx sy sw sh : JsVal).
    (* ctx.drawImage(img, sx, sy, sw, sh, 0, 0, sw, sh) *)

(** The bytes of a file, described by how they were obtained. *)
Inductive Payload :=
| Bytes (id : nat)
    (* the bytes of a file as the user picked it *)
| Encoded (src : Payload) (cw ch : Z) (d : DrawCall) (mime : string) (quality : Q)
    (* the blob canvas.toBlob produced for a cw x ch canvas on which
       [d] was drawn from the decoded [src] *)
| NullPart.
    (* new File([null], ...): no blob was produced *)

Record File := mkFile {
  name : string;
  type : string;
  size : Z;
  payload : Payload
}.

(** One value of [cropData]: the object applyCrop fills in. *)
Record CropEntry := mkCrop {
  cropped : bool;
  centerX : Q;
  centerY : Q;
  boxWidth : Q;
  boxHeight : Q
}.

(** Property access on such an object.  applyCrop and saveCropData are the
    only writers and they write exactly these five properties. *)
Definition get_prop (c : CropEntry) (p : string) : JsVal :=
  if String.eqb p "cropped" then JBool (cropped c)
  else if String.eqb p "centerX" then JNum (centerX c)
  else if String.eqb p "centerY" then JNum (centerY c)
  else if String.eqb p "boxWidth" then JNum (boxWidth c)
  else if String.eqb p "boxHeight" then JNum (boxHeight c)
  else JUndefined.

Record State := mkState {
  selectedFiles : list File;
  cropData : gmap nat CropEntry;
  currentCarouselIndex : nat
}.

(** [cropData[i] && cropData[i].cropped] *)
Definition has_crop (cd : gmap nat CropEntry) (i : nat) : option CropEntry :=
  match cd !! i with
  | Some c => if cropped c then Some c else None
  | None => None
  end.

(** ** Reordering and removal

    The buttons that call these handlers are rendered once per item, so
    the index they pass is a position of the list.  For an index past the
    end the JavaScript array would grow holes, which [list File] does not
    represent: the statements about these handlers assume a position of
    the list. *)
Module Reorder.

(** [cropData[i] = v] where [v] was read from another slot.  A slot that
    holds [undefined] is read as empty by every reader of [cropData]. *)
Definition assign (i : nat) (v : option CropEntry)
    (cd : gmap nat CropEntry) : gmap nat CropEntry :=
  partial_alter (fun _ => v) i cd.

(** [const t = a[i]; a[i] = a[j]; a[j] = t] on the item list. *)
Definition swap_items (i j : nat) (l : list File) : list File :=
  match l !! i, l !! j with
  | Some a, Some b => <[j:=a]> (<[i:=b]> l)
  | _, _ => l
  end.

Definition swap_crops (i j : nat) (cd : gmap nat CropEntry) : gmap nat CropEntry :=
  let tempCrop := cd !! i in
  assign j tempCrop (assign i (cd !! j) cd).

Definition moveMediaUp (index : nat) (st : State) : State :=
  if decide (0 < index) then
    mkState (swap_items index (index - 1) (selectedFiles st))
            (swap_crops index (index - 1) (cropData st))
            (if decide (currentCarouselIndex st = index) then index - 1
             else if decide (currentCarouselIndex st = index - 1) then index
             else currentCarouselIndex st)
  else st.

Definition moveMediaDown (index : nat) (st : State) : State :=
  if decide (index < length (selectedFiles st) - 1) then
    mkState (swap_items index (index + 1) (selectedFiles st))
            (swap_crops index (index + 1) (cropData st))
            (if decide (currentCarouselIndex st = index) then index + 1
             else if decide (currentCarouselIndex st = index + 1) then index
             else currentCarouselIndex st)
  else st.

(** [Object.keys(cropData).forEach(key => newCropData[f(key)] = cropData[key])]
    starting from an empty object.  In both callers no two keys are sent
    to the same new key, so the order in which the keys are visited does
    not show in the result. *)
Definition rebuild (f : nat -> nat) (cd : gmap nat CropEntry) : gmap nat CropEntry :=
  map_fold (fun idx c newCropData => <[f idx := c]> newCropData) ∅ cd.

(** [if (itemCrop) newCropData[k] = itemCrop] *)
Definition put_item_crop (k : nat) (itemCrop : option CropEntry)
    (cd : gmap nat CropEntry) : gmap nat CropEntry :=
  match itemCrop with
  | Some c => <[k := c]> cd
  | None => cd
  end.

Definition moveMediaToFirst (index : nat) (st : State) : State :=
  if decide (0 < index) then
    match selectedFiles st !! index with
    | Some item =>
        let files := item :: delete index (selectedFiles st) in
        let itemCrop := cropData st !! index in
        let rest := delete index (cropData st) in
        let newCropData :=
          rebuild (fun idx => if decide (idx < index) then idx + 1 else idx) rest in
        mkState files
                (put_item_crop 0 itemCrop newCropData)
                (if decide (currentCarouselIndex st = index) then 0
                 else if decide (currentCarouselIndex st < index)
                      then currentCarouselIndex st + 1
                      else currentCarouselIndex st)
    | None => st
    end
  else st.

Definition moveMediaToLast (index : nat) (st : State) : State :=
  if decide (index < length (selectedFiles st) - 1) then
    match selectedFiles st !! index with
    | Some item =>
        let files := delete index (selectedFiles st) ++ [item] in
        let itemCrop := cropData st !! index in
        let rest := delete index (cropData st) in
        let lastIndex := length files - 1 in
        let newCropData :=
          rebuild (fun idx => if decide (index < idx) then idx - 1 else idx) rest in
        mkState files
                (put_item_crop lastIndex itemCrop newCropData)
                (if decide (currentCarouselIndex st = index) then lastIndex
                 else if decide (index < currentCarouselIndex st)
                      then currentCarouselIndex st - 1
                      else currentCarouselIndex st)
    | None => st
    end
  else st.

(** [selectedFiles.splice(index, 1); currentCarouselIndex = 0;]
    [cropData] is not mentioned by the handler. *)
Definition removeMedia (index : nat) (st : State) : State :=
  mkState (delete index (selectedFiles st)) (cropData st) 0.

Inductive Op := Up | Down | ToFirst | ToLast.

Definition run (op : Op) : nat -> State -> State :=
  match op with
  | Up => moveMediaUp
  | Down => moveMediaDown
  | ToFirst => moveMediaToFirst
  | ToLast => moveMediaToLast
  end.

(** The old-index to new-index map of each operation on a list of [n]
    items. *)
Definition swap_at (i j k : nat) : nat :=
  if decide (k = i) then j else if decide (k = j) then i else k.

Definition to_first (i k : nat) : nat :=
  if decide (k = i) then 0 else if decide (k < i) then k + 1 else k.

Definition to_last (n i k : nat) : nat :=
  if decide (k = i) then n - 1 else if decide (i < k) then k - 1 else k.

Definition new_index (op : Op) (n i : nat) : nat -> nat :=
  match op with
  | Up => if decide (0 < i) then swap_at i (i - 1) else id
  | Down => if decide (i < n - 1) then swap_at i (i + 1) else id
  | ToFirst => if decide (0 < i) then to_first i else id
  | ToLast => if decide (i < n - 1) then to_last n i else id
  end.

(** No two keys of [cd] are sent to the same new key. *)
Definition keys_distinct (f : nat -> nat) (cd : gmap nat CropEntry) : Prop :=
  forall k1 k2, is_Some (cd !! k1) -> is_Some (cd !! k2) -> f k1 = f k2 -> k1 = k2.

End Reorder.

(** ** Ingestion: handleMediaSelect, processImage, resizeImage *)
Module Ingest.

(** What the user or the console gets to see. *)
Inductive Event :=
| Toast (message kind : string)
| ConsoleError (what : string).

(** Why a promise was rejected. *)
Inductive Failure :=
| LoadFailed
    (* reader.onerror or img.onerror *)
| ErrorMsg (message : string).

Inductive Outcome :=
| Resolved (f : File)
| Rejected (e : Failure).

Definition MAX_FILE_SIZE : Z := 8 * 1024 * 1024.

Definition maxDimension : Q := 1080.

(** [canvas.width = v]: the number is truncated and taken modulo 2^32
    (conversion to unsigned long). *)
Definition canvas_dim (v : Q) : Z :=
  (Z.quot (Qnum v) (Z.pos (Qden v)) mod 2 ^ 32)%Z.

(** The new dimensions resizeImage computes from [img.width] and
    [img.height]. *)
Definition resize_dims (w h : Q) : Q * Q :=
  if negb (Qle_bool w h) && negb (Qle_bool w maxDimension) then
    (maxDimension, (h * maxDimension) / w)%Q
  else if negb (Qle_bool h maxDimension) then
    ((w * maxDimension) / h, maxDimension)%Q
  else (w, h).

Definition quote : string := String (ascii_of_nat 34) EmptyString.

Section Browser.

(** [decode file]: the natural width and height once the file has been
    read and decoded, or nothing when reading or decoding fails. *)
Variable decode : File -> option (Z * Z).

(** [toBlob src cw ch d mime quality]: the size of the blob the canvas
    encodes, or nothing when the callback receives [null]. *)
Variable toBlob : Payload -> Z -> Z -> DrawCall -> string -> Q -> option Z.

Definition resizeImage (file : File) : Outcome :=
  match decode file with
  | None => Rejected LoadFailed
  | Some (w, h) =>
      let '(width, height) := resize_dims (inject_Z w) (inject_Z h) in
      let cw := canvas_dim width in
      let ch := canvas_dim height in
      let d := DrawWhole width height in
      match toBlob (payload file) cw ch d (type file) 0.9%Q with
      | Some sz =>
          Resolved (mkFile (name file) (type file) sz
                           (Encoded (payload file) cw ch d (type file) 0.9%Q))
      | None => Rejected (ErrorMsg "Failed to resize image")
      end
  end.

Definition processImage (file : File) : Outcome :=
  if decide (MAX_FILE_SIZE < size file)%Z then resizeImage file
  else Resolved file.

(** One turn of the loop of handleMediaSelect: what is pushed onto
    [processedFiles], and what is shown or logged. *)
Definition process_one (file : File) : File * list Event :=
  if String.prefix "image/" (type file) then
    match processImage file with
    | Resolved processed =>
        (processed,
         if decide (size processed = size file) then []
         else [Toast ("Image " +:+ quote +:+ name file +:+ quote
                        +:+ " was optimized for Instagram") "info"])
    | Rejected _ =>
        (file, [ConsoleError "Failed to process image:"])
    end
  else (file, []).

Fixpoint process_all (files : list File) : list File * list Event :=
  match files with
  | [] => ([], [])
  | file :: rest =>
      let '(one, ev) := process_one file in
      let '(more, evs) := process_all rest in
      (one :: more, ev ++ evs)
  end.

(** handleMediaSelect on the files of the input element.  The two
    rendering calls at its end read the state and write the page only. *)
Definition handleMediaSelect (files : list File) (st : State) : State * list Event :=
  if decide (20 < length files) then
    (st, [Toast "Maximum 20 images allowed" "error"])
  else
    let '(processedFiles, evs) := process_all files in
    (mkState processedFiles (cropData st) (currentCarouselIndex st), evs).

End Browser.

End Ingest.

(** ** Preview: the crop rectangle recomputed at every render

    The operations of this module are the exact ones; [Render], further
    down, is the same recomputation with every operation rounded. *)
Module Preview.

Local Open Scope Q_scope.

(** The value of the aspect-ratio dropdown after parsing: the word
    original, a W:H pair, or a bare decimal.  The page that holds the
    dropdown is not part of the sources, so the value is an argument of
    every handler that reads it. *)
Inductive AspectRatio :=
| Original
| Ratio (w h : Q)
| Decimal (q : Q).

Definition targetRatio (a : AspectRatio) (imgW imgH : Q) : Q :=
  match a with
  | Original => imgW / imgH
  | Ratio w h => w / h
  | Decimal q => q
  end.

(** [boxWidth] and [boxHeight] as updatePreview and displayMediaPreview
    compute them from the stored entry. *)
Definition box_for_ratio (imgW imgH targetRatio : Q) (c : CropEntry) : Q * Q :=
  let storedBoxWidth := boxWidth c in
  let storedBoxHeight := boxHeight c in
  let possibleWidthFromHeight := storedBoxHeight * targetRatio in
  let possibleHeightFromWidth := storedBoxWidth / targetRatio in
  if Qle_bool possibleWidthFromHeight imgW then
    (possibleWidthFromHeight, storedBoxHeight)
  else if Qle_bool possibleHeightFromWidth imgH then
    (storedBoxWidth, possibleHeightFromWidth)
  else if negb (Qle_bool (storedBoxWidth / imgW) (storedBoxHeight / imgH)) then
    (storedBoxWidth, storedBoxWidth / targetRatio)
  else
    (storedBoxHeight * targetRatio, storedBoxHeight).

Record Rect := mkRect { rx : Q; ry : Q; rw : Q; rh : Q }.

(** [clampedX, clampedY, clampedW, clampedH]: the source rectangle handed
    to drawImage. *)
Definition clamped_rect (imgW imgH targetRatio : Q) (c : CropEntry) : Rect :=
  let '(boxWidth, boxHeight) := box_for_ratio imgW imgH targetRatio c in
  let cropX := centerX c - boxWidth / 2 in
  let cropY := centerY c - boxHeight / 2 in
  let clampedX := Qmax 0 (Qmin cropX (imgW - boxWidth)) in
  let clampedY := Qmax 0 (Qmin cropY (imgH - boxHeight)) in
  let clampedW := Qmin boxWidth (imgW - clampedX) in
  let clampedH := Qmin boxHeight (imgH - clampedY) in
  mkRect clampedX clampedY clampedW clampedH.

(** What the preview canvas is asked to draw for an image of natural
    size [imgW] x [imgH]: the clamped rectangle when the item has a
    committed crop, the whole image otherwise. *)
Definition preview_draw (a : AspectRatio) (imgW imgH : Q)
    (crop : option CropEntry) : DrawCall :=
  match crop with
  | Some c =>
      let R := clamped_rect imgW imgH (targetRatio a imgW imgH) c in
      DrawRegion (JNum (rx R)) (JNum (ry R)) (JNum (rw R)) (JNum (rh R))
  | None => DrawWhole imgW imgH
  end.

(** What updatePreview loads into the carousel: nothing for an empty
    selection; otherwise the file at the cursor with the crop entry found
    at the cursor.  When no file is at the cursor, [undefined] is handed
    to the file reader, which throws. *)
Inductive Shown :=
| NothingSelected
| Shows (f : File) (crop : option CropEntry)
| ReaderThrows.

Definition updatePreview_shown (st : State) : Shown :=
  match selectedFiles st with
  | [] => NothingSelected
  | _ :: _ =>
      match selectedFiles st !! currentCarouselIndex st with
      | Some currentFile => Shows currentFile (has_crop (cropData st) (currentCarouselIndex st))
      | None => ReaderThrows
      end
  end.

End Preview.

(** ** The crop modal: pointer handlers and applyCrop

    The operations of this module are the exact ones.  The statements
    about it are about pointer positions and sizes at which the code
    computes without rounding, or about comparisons and signs, which
    rounding leaves as they are. *)
Module CropModal.

Import Preview.
Local Open Scope Q_scope.

Record Box := mkBox { x : Q; y : Q; width : Q; height : Q }.

Record CropState := mkCropState {
  startX : Q;
  startY : Q;
  startWidth : Q;
  startHeight : Q;
  startLeft : Q;
  startTop : Q;
  isMoving : bool;
  isResizing : bool;
  resizeHandle : option string;
  cropBox : option Box;
  imageWidth : Q;
  imageHeight : Q;
  originalAspectRatio : Q
}.

(** Where the page laid out the image of the modal: [offsetLeft],
    [offsetTop], [offsetWidth], [offsetHeight]. *)
Record Layout := mkLayout {
  imageLeft : Q;
  imageTop : Q;
  displayWidth : Q;
  displayHeight : Q
}.

(** [handle.includes(c)] for a one-character [c]. *)
Fixpoint includes (c : ascii) (s : string) : bool :=
  match s with
  | EmptyString => false
  | String a rest => if Ascii.eqb a c then true else includes c rest
  end.

(** The target ratio of the modal: [cropState.originalAspectRatio] for
    the word original, the parsed number otherwise. *)
Definition modalRatio (a : AspectRatio) (original : Q) : Q :=
  match a with
  | Original => original
  | Ratio w h => w / h
  | Decimal q => q
  end.

(** The largest box of the target ratio, centred on the image: the box
    openCropModal starts from when the item has no stored crop. *)
Definition default_box (lay : Layout) (targetRatio : Q) : Box :=
  let imageWidth := displayWidth lay in
  let imageHeight := displayHeight lay in
  let '(cropWidth, cropHeight) :=
    if negb (Qle_bool (imageWidth / imageHeight) targetRatio) then
      (imageHeight * targetRatio, imageHeight)
    else
      (imageWidth, imageWidth / targetRatio) in
  mkBox (imageLeft lay + (imageWidth - cropWidth) / 2)
        (imageTop lay + (imageHeight - cropHeight) / 2)
        cropWidth cropHeight.

(** The box restored from a stored crop of an image of natural size
    [actualImageWidth] x [actualImageHeight]. *)
Definition restored_box (lay : Layout) (actualImageWidth actualImageHeight : Q)
    (prevCropData : CropEntry) : Box :=
  let scaleX := displayWidth lay / actualImageWidth in
  let scaleY := displayHeight lay / actualImageHeight in
  let displayCenterX := centerX prevCropData * scaleX in
  let displayCenterY := centerY prevCropData * scaleY in
  let displayBoxWidth := boxWidth prevCropData * scaleX in
  let displayBoxHeight := boxHeight prevCropData * scaleY in
  let displayCropX := displayCenterX - displayBoxWidth / 2 in
  let displayCropY := displayCenterY - displayBoxHeight / 2 in
  mkBox (imageLeft lay + displayCropX) (imageTop lay + displayCropY)
        displayBoxWidth displayBoxHeight.

(** The state openCropModal leaves once the image of item [index] has
    loaded. *)
Definition openCropModal (lay : Layout) (a : AspectRatio)
    (actualImageWidth actualImageHeight : Q) (index : nat) (st : State)
    (cs : CropState) : CropState :=
  let currentImageAspectRatio := displayWidth lay / displayHeight lay in
  let targetRatio := modalRatio a currentImageAspectRatio in
  let box :=
    match has_crop (cropData st) index with
    | Some prev => restored_box lay actualImageWidth actualImageHeight prev
    | None => default_box lay targetRatio
    end in
  mkCropState (startX cs) (startY cs) (startWidth cs) (startHeight cs)
              (startLeft cs) (startTop cs) (isMoving cs) (isResizing cs)
              (resizeHandle cs) (Some box)
              (displayWidth lay) (displayHeight lay) currentImageAspectRatio.

Definition initialCropState : CropState :=
  mkCropState 0 0 0 0 0 0 false false None None 0 0 1.

Definition handleCropBoxMouseDown (clientX clientY : Q) (cs : CropState) : CropState :=
  match cropBox cs with
  | Some b =>
      mkCropState clientX clientY (startWidth cs) (startHeight cs)
                  (x b) (y b) true (isResizing cs)
                  (resizeHandle cs) (cropBox cs)
                  (imageWidth cs) (imageHeight cs) (originalAspectRatio cs)
  | None => cs
  end.

Definition handleHandleMouseDown (handle : string) (clientX clientY : Q)
    (cs : CropState) : CropState :=
  match cropBox cs with
  | Some b =>
      mkCropState clientX clientY (width b) (height b)
                  (x b) (y b) (isMoving cs) true
                  (Some handle) (cropBox cs)
                  (imageWidth cs) (imageHeight cs) (originalAspectRatio cs)
  | None => cs
  end.

Definition set_box (b : Box) (cs : CropState) : CropState :=
  mkCropState (startX cs) (startY cs) (startWidth cs) (startHeight cs)
              (startLeft cs) (startTop cs) (isMoving cs) (isResizing cs)
              (resizeHandle cs) (Some b)
              (imageWidth cs) (imageHeight cs) (originalAspectRatio cs).

Definition minSize : Q := 50.

(** The moving branch of handleMouseMove. *)
Definition move_box (lay : Layout) (deltaX deltaY : Q) (cs : CropState) (b : Box) : Box :=
  let newX := startLeft cs + deltaX in
  let newY := startTop cs + deltaY in
  let maxX := imageLeft lay + imageWidth cs - width b in
  let maxY := imageTop lay + imageHeight cs - height b in
  let newX := Qmax (imageLeft lay) (Qmin newX maxX) in
  let newY := Qmax (imageTop lay) (Qmin newY maxY) in
  mkBox newX newY (width b) (height b).

(** The resizing branch of handleMouseMove, statement by statement. *)
Definition resize_box (lay : Layout) (targetRatio : Q) (deltaX deltaY : Q)
    (cs : CropState) : Box :=
  let handle := match resizeHandle cs with Some h => h | None => EmptyString end in
  let newWidth := startWidth cs in
  let newHeight := startHeight cs in
  let newX := startLeft cs in
  let newY := startTop cs in
  let newWidth :=
    if includes "e" handle then Qmax minSize (startWidth cs + deltaX) else newWidth in
  let newHeight :=
    if includes "s" handle then Qmax minSize (startHeight cs + deltaY) else newHeight in
  let '(newWidth, newX) :=
    if includes "w" handle
    then (Qmax minSize (startWidth cs - deltaX), startLeft cs + deltaX)
    else (newWidth, newX) in
  let '(newHeight, newY) :=
    if includes "n" handle
    then (Qmax minSize (startHeight cs - deltaY), startTop cs + deltaY)
    else (newHeight, newY) in
  let '(newWidth, newHeight) :=
    if includes "e" handle || includes "w" handle then (newWidth, newWidth / targetRatio)
    else if includes "s" handle || includes "n" handle then (newHeight * targetRatio, newHeight)
    else (newWidth, newHeight) in
  let imageRight := imageLeft lay + imageWidth cs in
  let imageBottom := imageTop lay + imageHeight cs in
  let '(newX, newWidth) :=
    if negb (Qle_bool (imageLeft lay) newX)
    then (imageLeft lay, Qmin newWidth (imageRight - imageLeft lay))
    else (newX, newWidth) in
  let '(newY, newHeight) :=
    if negb (Qle_bool (imageTop lay) newY)
    then (imageTop lay, Qmin newHeight (imageBottom - imageTop lay))
    else (newY, newHeight) in
  let '(newWidth, newHeight) :=
    if negb (Qle_bool (newX + newWidth) imageRight)
    then (imageRight - newX, (imageRight - newX) / targetRatio)
    else (newWidth, newHeight) in
  let '(newWidth, newHeight) :=
    if negb (Qle_bool (newY + newHeight) imageBottom)
    then ((imageBottom - newY) * targetRatio, imageBottom - newY)
    else (newWidth, newHeight) in
  mkBox newX newY newWidth newHeight.

Definition handleMouseMove (lay : Layout) (a : AspectRatio) (clientX clientY : Q)
    (cs : CropState) : CropState :=
  if negb (isMoving cs) && negb (isResizing cs) then cs
  else
    let deltaX := clientX - startX cs in
    let deltaY := clientY - startY cs in
    match cropBox cs with
    | None => cs
    | Some b =>
        if isMoving cs then set_box (move_box lay deltaX deltaY cs b) cs
        else
          let targetRatio := modalRatio a (originalAspectRatio cs) in
          set_box (resize_box lay targetRatio deltaX deltaY cs) cs
    end.

Definition handleMouseUp (cs : CropState) : CropState :=
  mkCropState (startX cs) (startY cs) (startWidth cs) (startHeight cs)
              (startLeft cs) (startTop cs) false false None (cropBox cs)
              (imageWidth cs) (imageHeight cs) (originalAspectRatio cs).

(** The entry applyCrop stores for the box on screen.  The bounding
    rectangles of the box and of the image differ by the box position
    relative to the image. *)
Definition crop_of_box (lay : Layout) (actualImageWidth actualImageHeight : Q)
    (b : Box) : CropEntry :=
  let scaleX := actualImageWidth / displayWidth lay in
  let scaleY := actualImageHeight / displayHeight lay in
  let relativeLeft := x b - imageLeft lay in
  let relativeTop := y b - imageTop lay in
  let cropBoxWidth := width b in
  let cropBoxHeight := height b in
  mkCrop true
         ((relativeLeft + cropBoxWidth / 2) * scaleX)
         ((relativeTop + cropBoxHeight / 2) * scaleY)
         (cropBoxWidth * scaleX)
         (cropBoxHeight * scaleY).

Definition applyCrop (lay : Layout) (actualImageWidth actualImageHeight : Q)
    (currentCropIndex : option nat) (cs : CropState) (st : State) : State :=
  match currentCropIndex, cropBox cs with
  | Some i, Some b =>
      mkState (selectedFiles st)
              (<[i := crop_of_box lay actualImageWidth actualImageHeight b]> (cropData st))
              (currentCarouselIndex st)
  | _, _ => st
  end.

(** The box as the stored geometry sees it: relative to the image. *)
Definition inside_image (lay : Layout) (cs : CropState) (b : Box) : Prop :=
  imageLeft lay <= x b /\ imageTop lay <= y b /\
  x b + width b <= imageLeft lay + imageWidth cs /\
  y b + height b <= imageTop lay + imageHeight cs.

End CropModal.

(** ** Submission: handleCreatePost and applyCropToFile *)
Module Submit.

Section Browser.

Variable toBlob : Payload -> Z -> Z -> DrawCall -> string -> Q -> option Z.

(** [canvas.width = v] for a value read from an object: [undefined]
    becomes 0. *)
Definition canvas_dim_of (v : JsVal) : Z :=
  match v with
  | JNum q => Ingest.canvas_dim q
  | JBool b => if b then 1%Z else 0%Z
  | JUndefined => 0%Z
  end.

(** The source rectangle applyCropToFile hands to drawImage. *)
Definition crop_draw (cropData : CropEntry) : DrawCall :=
  DrawRegion (get_prop cropData "x") (get_prop cropData "y")
             (get_prop cropData "width") (get_prop cropData "height").

(** applyCropToFile resolves with whatever toBlob passes to its
    callback: a blob or [null]. *)
Definition applyCropToFile (file : File) (cropData : CropEntry) : option (Z * Payload) :=
  let cw := canvas_dim_of (get_prop cropData "width") in
  let ch := canvas_dim_of (get_prop cropData "height") in
  let d := crop_draw cropData in
  match toBlob (payload file) cw ch d "image/jpeg" 0.95%Q with
  | Some sz => Some (sz, Encoded (payload file) cw ch d "image/jpeg" 0.95%Q)
  | None => None
  end.

(** [new File([croppedBlob], file.name, { type: 'image/jpeg' })] *)
Definition file_of_blob (croppedBlob : option (Z * Payload)) (file : File) : File :=
  match croppedBlob with
  | Some (sz, p) => mkFile (name file) "image/jpeg" sz p
  | None => mkFile (name file) "image/jpeg" 4 NullPart
  end.

(** The value appended under the key media for the item at [index]. *)
Definition media_part (st : State) (index : nat) (file : File) : File :=
  match has_crop (cropData st) index with
  | Some c => file_of_blob (applyCropToFile file c) file
  | None => file
  end.

(** The media values of the form handleCreatePost sends, in order, once
    it has found a selection and a date to schedule. *)
Definition handleCreatePost_media (st : State) : list File :=
  imap (media_part st) (selectedFiles st).

(** The rectangle a stored window describes: [boxWidth] x [boxHeight]
    centred at [(centerX, centerY)]. *)
Definition window_draw (c : CropEntry) : DrawCall :=
  DrawRegion (JNum (centerX c - boxWidth c / 2)) (JNum (centerY c - boxHeight c / 2))
             (JNum (boxWidth c)) (JNum (boxHeight c)).

End Browser.

End Submit.

(** ** What the specification asks of removal *)
Module RemovalSpec.

(** In the words of the specification, the old-index to new-index map
    of [remove(i)]: indices above [i] shift down by one. *)
Definition after_removal (i k : nat) : nat :=
  if decide (k < i) then k else k - 1.

(** In the words of the specification: the crop store is remapped like
    the items, so every surviving item keeps its crop window. *)
Definition remaps_crops (i : nat) (st : State) : Prop :=
  forall k c, k < length (selectedFiles st) -> k <> i ->
    cropData st !! k = Some c ->
    cropData (Reorder.removeMedia i st) !! after_removal i k = Some c.

(** In the words of the specification: a cursor that was not on the
    removed item keeps showing the same item. *)
Definition keeps_cursor (i : nat) (st : State) : Prop :=
  currentCarouselIndex st < length (selectedFiles st) ->
  currentCarouselIndex st <> i ->
  selectedFiles (Reorder.removeMedia i st)
    !! currentCarouselIndex (Reorder.removeMedia i st)
  = selectedFiles st !! currentCarouselIndex st.

End RemovalSpec.

(** ** What the specification asks of ingestion *)
Module IngestSpec.

Import Ingest.

Section Browser.

Variable decode : File -> option (Z * Z).
Variable toBlob : Payload -> Z -> Z -> DrawCall -> string -> Q -> option Z.

(** In the words of the specification: [ingest(newFiles, existingItems)]
    appends the new batch to the existing list and rejects the whole
    batch when the existing count plus the batch count exceeds 20. *)
Definition ingest (newFiles : list File) (st : State) : State * list Event :=
  if decide (20 < length (selectedFiles st) + length newFiles) then
    (st, [Toast "Maximum 20 images allowed" "error"])
  else
    let '(processedFiles, evs) := process_all decode toBlob newFiles in
    (mkState (selectedFiles st ++ processedFiles) (cropData st)
             (currentCarouselIndex st), evs).

(** In the words of the specification: an image whose processing was
    rejected is not put into the selection, and an error is shown for
    it. *)
Definition failure_reaches_caller (files : list File) (st : State) : Prop :=
  forall f e, f ∈ files ->
    String.prefix "image/" (type f) = true ->
    processImage decode toBlob f = Rejected e ->
    (f ∉ selectedFiles (fst (handleMediaSelect decode toBlob files st))) /\
    (exists message,
       Toast message "error" ∈ snd (handleMediaSelect decode toBlob files st)).

(** In the words of the specification: an image above the threshold
    that decodes is processed into a re-encoding at quality 0.9 with its
    longer side at most 1080. *)
Definition downscaled (file : File) : Prop :=
  forall w h : Z,
    String.prefix "image/" (type file) = true ->
    (MAX_FILE_SIZE < size file)%Z ->
    decode file = Some (w, h) ->
    exists (cw ch sz : Z) (d : DrawCall),
      fst (process_one decode toBlob file)
      = mkFile (name file) (type file) sz
               (Encoded (payload file) cw ch d (type file) 0.9%Q) /\
      (Z.max cw ch <= 1080)%Z.

End Browser.

End IngestSpec.

(** ** Concrete selections used in the examples *)
Module Demo.

Definition imgA : File := mkFile "a.jpg" "image/jpeg" 1000 (Bytes 0).
Definition imgB : File := mkFile "b.jpg" "image/jpeg" 2000 (Bytes 1).
Definition imgC : File := mkFile "c.jpg" "image/jpeg" 3000 (Bytes 2).

Definition cropA : CropEntry := mkCrop true 500 500 800 600.
Definition cropB : CropEntry := mkCrop true 640 360 256 256.
Definition cropC : CropEntry := mkCrop true 300 200 400 400.

(** [A(crop), B, C(crop)] with the carousel on [C]. *)
Definition a_b_c : State :=
  mkState [imgA; imgB; imgC] (<[0 := cropA]> (<[2 := cropC]> ∅)) 2.

(** [A, B(crop), C] with the carousel on [B]. *)
Definition crop_on_b : State :=
  mkState [imgA; imgB; imgC] (<[1 := cropB]> ∅) 1.

(** A browser in which nothing decodes and nothing encodes; the files
    above are small enough never to ask. *)
Definition no_decode : File -> option (Z * Z) := fun _ => None.
Definition no_blob : Payload -> Z -> Z -> DrawCall -> string -> Q -> option Z :=
  fun _ _ _ _ _ _ => None.

(** A 4000 x 3000 image of 10 MB, a browser that decodes it, and two
    encoders: one that yields a blob of 600000 bytes, one that yields
    [null]. *)
Definition big : File := mkFile "big.jpg" "image/jpeg" (10 * 1024 * 1024) (Bytes 7).
Definition decode_4000x3000 : File -> option (Z * Z) :=
  fun _ => Some (4000, 3000)%Z.
Definition blob_600000 : Payload -> Z -> Z -> DrawCall -> string -> Q -> option Z :=
  fun _ _ _ _ _ _ => Some 600000%Z.

(** Fifteen selected items, and a batch of ten more. *)
Definition fifteen : State := mkState (replicate 15 imgA) ∅ 0.
Definition ten_more : list File := replicate 10 imgB.

(** The crop modal showing a 4000 x 2000 image at 400 x 200, its
    top-left corner at the origin of the container. *)
Definition lay : CropModal.Layout := CropModal.mkLayout 0 0 400 200.

Definition one_image : State := mkState [imgA] ∅ 0.

(** Opened with the dropdown on 1:1: the box is the centred square
    [(100, 0, 200, 200)]. *)
Definition opened_square : CropModal.CropState :=
  CropModal.openCropModal lay (Preview.Ratio 1 1) 4000 2000 0 one_image
    CropModal.initialCropState.

(** The top handle is pressed at [(200, 0)] and dragged up to
    [(200, -100)]. *)
Definition dragged_up : CropModal.CropState :=
  CropModal.handleMouseMove lay (Preview.Ratio 1 1) 200 (-100)
    (CropModal.handleHandleMouseDown "n" 200 0 opened_square).

(** Opened with the dropdown on original: the box is the whole image
    [(0, 0, 400, 200)].  The left handle is pressed at [(0, 100)] and
    dragged to the right, to [(px, 100)]. *)
Definition opened_original : CropModal.CropState :=
  CropModal.openCropModal lay Preview.Original 4000 2000 0 one_image
    CropModal.initialCropState.

Definition dragged_right (px : Q) : CropModal.CropState :=
  CropModal.handleMouseMove lay Preview.Original px 100
    (CropModal.handleHandleMouseDown "w" 0 100 opened_original).

(** The width, the height and the left edge of the box of a state, 0
    when there is none. *)
Definition box_width (cs : CropModal.CropState) : Q :=
  match CropModal.cropBox cs with Some b => CropModal.width b | None => 0 end.
Definition box_height (cs : CropModal.CropState) : Q :=
  match CropModal.cropBox cs with Some b => CropModal.height b | None => 0 end.
Definition box_left (cs : CropModal.CropState) : Q :=
  match CropModal.cropBox cs with Some b => CropModal.x b | None => 0 end.
Definition box_top (cs : CropModal.CropState) : Q :=
  match CropModal.cropBox cs with Some b => CropModal.y b | None => 0 end.

End Demo.

(** ** The carousel, the form and the schedule *)
Module Carousel.

(** navigateCarousel(direction): the buttons pass -1 and 1.  The sum
    may leave the list on either side before it is wrapped. *)
Definition navigateCarousel (direction : Z) (st : State) : State :=
  if decide (length (selectedFiles st) <= 1) then st
  else
    let n := Z.of_nat (length (selectedFiles st)) in
    let moved := (Z.of_nat (currentCarouselIndex st) + direction)%Z in
    let wrapped :=
      if decide (moved < 0)%Z then (n - 1)%Z
      else if decide (n <= moved)%Z then 0%Z
      else moved in
    mkState (selectedFiles st) (cropData st) (Z.to_nat wrapped).

(** The click handler of the indicator built for position [idx]:
    [currentCarouselIndex = idx]. *)
Definition indicator_click (idx : nat) (st : State) : State :=
  mkState (selectedFiles st) (cropData st) idx.

(** The three variables as resetPostForm leaves them. *)
Definition resetPostForm (st : State) : State := mkState [] ∅ 0.

End Carousel.

Module Schedule.

(** The table of getScheduledDateTime and of handleManualDateTimeChange,
    in the order its keys were written. *)
Definition times : list (string * Z) :=
  [("morning", 9%Z); ("afternoon", 12%Z); ("evening", 17%Z); ("night", 20%Z)].

(** [timeMap[timePeriod]] for a period of the table. *)
Definition period_hour (timePeriod : string) : option Z :=
  (list_to_map times : gmap string Z) !! timePeriod.

(** One turn of the loop of handleManualDateTimeChange; [closestDiff]
    starts as [Infinity], here [None]. *)
Definition closer (hour : Z) (acc : string * option Z) (entry : string * Z)
    : string * option Z :=
  let '(period, periodHour) := entry in
  let diff := Z.abs (hour - periodHour) in
  match snd acc with
  | None => (period, Some diff)
  | Some closestDiff =>
      if decide (diff < closestDiff)%Z then (period, Some diff) else acc
  end.

(** The period the dropdown is set to for a time typed by hand, from
    the hour of that time. *)
Definition closestPeriod (hour : Z) : string :=
  fst (fold_left (closer hour) times ("", None)).

End Schedule.

Module Form.

(** The time a post is scheduled for, as handleCreatePost finds it: the
    text of the date-time input, or the selected day of the calendar with
    a time period. *)
Inductive When :=
| Manual (scheduledTimeInput : string)
| Calendar (dateStr timePeriod : string).

Record Post := mkPost {
  caption : string;
  scheduled : When;
  status : string;
  aspect_ratio : string;
  media : list File
}.

Inductive Submission :=
| Refused (message : string)
    (* showToast(message, 'error'); return *)
| Sent (p : Post).
    (* the form data posted to /posts/ *)

(** A string in a condition: the empty string is false. *)
Definition truthy (s : string) : bool := negb (String.eqb s "").

Section Browser.

Variable toBlob : Payload -> Z -> Z -> DrawCall -> string -> Q -> option Z.

Definition handleCreatePost (caption scheduledTimeInput : string)
    (selectedDate : option string) (timePeriod status : string)
    (aspectRatio customAspectRatio : string) (st : State) : Submission :=
  if decide (length (selectedFiles st) = 0) then
    Refused "Please select at least one image"
  else
    let scheduledDateTime :=
      if truthy scheduledTimeInput then Some (Manual scheduledTimeInput)
      else
        match selectedDate with
        | Some dateStr =>
            if truthy timePeriod then Some (Calendar dateStr timePeriod) else None
        | None => None
        end in
    match scheduledDateTime with
    | None => Refused "Please select a date and time"
    | Some w =>
        let aspectRatio :=
          if String.eqb aspectRatio "custom" then
            (if truthy customAspectRatio then customAspectRatio else "original")
          else aspectRatio in
        Sent (mkPost caption w status aspectRatio
                     (Submit.handleCreatePost_media toBlob st))
    end.

End Browser.

End Form.

(** ** Sessions: what the handlers do one after the other *)
Module Session.

(** The handlers that edit a selection without changing how many files
    it has. *)
Inductive edit : State -> State -> Prop :=
| edit_move op i st :
    i < length (selectedFiles st) -> edit st (Reorder.run op i st)
| edit_navigate direction st :
    edit st (Carousel.navigateCarousel direction st)
| edit_indicator idx st :
    idx < length (selectedFiles st) -> edit st (Carousel.indicator_click idx st)
| edit_crop lay actualImageWidth actualImageHeight i cs st :
    i < length (selectedFiles st) ->
    edit st (CropModal.applyCrop lay actualImageWidth actualImageHeight
               (Some i) cs st)
| edit_reset st :
    edit st (Carousel.resetPostForm st).

Inductive step : State -> State -> Prop :=
| step_edit st st' : edit st st' -> step st st'
| step_remove i st : step st (Reorder.removeMedia i st).

(** The carousel has something to load, or nothing is selected. *)
Definition preview_safe (st : State) : Prop :=
  Preview.updatePreview_shown st <> Preview.ReaderThrows.

(** No crop entry is stored past the end of the list. *)
Definition crops_in_range (st : State) : Prop :=
  forall j, length (selectedFiles st) <= j -> cropData st !! j = None.

End Session.

(** ** Moving an item to the front one place at a time *)
Module Compose.

(** [moveMediaUp(i); moveMediaUp(i - 1); ...; moveMediaUp(1)]: the
    left arrow pressed until the item is first. *)
Fixpoint move_up_to_front (i : nat) (st : State) : State :=
  match i with
  | 0 => st
  | S k => move_up_to_front k (Reorder.moveMediaUp (S k) st)
  end.

(** The old index of the item found at [q] after moveMediaToFirst(i). *)
Definition from_first (i q : nat) : nat :=
  if decide (q = 0) then i else if decide (q <= i) then q - 1 else q.

End Compose.

(** ** The arithmetic of the engine

    On JavaScript numbers [x * y], [x / y], [x + y] and [x - y] are the
    exact results rounded to the nearest binary64 number, ties going to
    the even significand.  [fl] is that rounding on rationals:
    significands of 53 bits, exponents down to that of the subnormal
    numbers, [2 ^ -1074].  Results of magnitude [2 ^ 1024] and more
    (Infinity in the engine) and divisions by zero are outside this
    model; the statements about rounded operations keep away from both. *)
Module Binary64.

Local Open Scope Q_scope.

(** The integer nearest to [y], the even one of the two when [y] lies
    half way. *)
Definition nearest_even (y : Q) : Z :=
  let f := Qfloor y in
  match Qcompare (y - inject_Z f) (1 # 2) with
  | Lt => f
  | Gt => (f + 1)%Z
  | Eq => if Z.even f then f else (f + 1)%Z
  end.

(** The binary exponent of [x <> 0]: the integer [e] with
    [2 ^ e <= |x| < 2 ^ (e + 1)]. *)
Definition exponent (x : Q) : Z :=
  let a := Qabs x in
  let e := (Z.log2 (Qnum a) - Z.log2 (Zpos (Qden a)))%Z in
  if Qle_bool (2 ^ e) a then e else (e - 1)%Z.

(** The exponent of the last of the 53 bits of [x]. *)
Definition ulp_exponent (x : Q) : Z := Z.max (exponent x - 52) (-1074).

(** [x] rounded to binary64. *)
Definition fl (x : Q) : Q :=
  if Qeq_bool x 0 then 0
  else
    let k := ulp_exponent x in
    Qred (inject_Z (nearest_even (x / 2 ^ k)) * 2 ^ k).

(** The four operations of the engine. *)
Definition fmul (x y : Q) : Q := fl (x * y).
Definition fdiv (x y : Q) : Q := fl (x / y).
Definition fadd (x y : Q) : Q := fl (x + y).
Definition fsub (x y : Q) : Q := fl (x - y).

(** Magnitudes between [2 ^ -500] and [2 ^ 500], which pixel sizes and
    aspect ratios are: products and quotients of two such numbers are far
    from overflow and from the subnormal numbers. *)
Definition ordinary (x : Q) : Prop := 2 ^ (-500) <= x <= 2 ^ 500.

(** The smallest positive number that is not subnormal. *)
Definition tiny : Q := 2 ^ (-1022).

End Binary64.

(** [fl] set against the IEEE 754 operations of the standard library
    ([SpecFloat], the specification of the primitive floats) at binary64,
    on doubles given by an integer and a binary exponent. *)
Module Binary64Check.

Import SpecFloat.
Local Open Scope Q_scope.

(** The rational a finite float stands for. *)
Definition value (f : spec_float) : Q :=
  match f with
  | S754_finite s m e => (if s then -1 else 1) * inject_Z (Zpos m) * 2 ^ e
  | _ => 0
  end.

(** The double nearest to [m * 2 ^ e]. *)
Definition double (m e : Z) : spec_float := binary_normalize 53 1024 m e false.

(** The rational [q] is the finite result [f]; nothing is asked when the
    library operation overflows or has no value. *)
Definition same (q : Q) (f : spec_float) : bool :=
  match f with
  | S754_infinity _ | S754_nan => true
  | _ => Qeq_bool q (value f)
  end.

Definition agree (m1 e1 m2 e2 : Z) : bool :=
  let f1 := double m1 e1 in
  let f2 := double m2 e2 in
  same (Binary64.fmul (value f1) (value f2)) (SFmul 53 1024 f1 f2) &&
  same (Binary64.fdiv (value f1) (value f2)) (SFdiv 53 1024 f1 f2) &&
  same (Binary64.fadd (value f1) (value f2)) (SFadd 53 1024 f1 f2) &&
  same (Binary64.fsub (value f1) (value f2)) (SFsub 53 1024 f1 f2).

Definition agree_on (ms1 es1 ms2 es2 : list Z) : bool :=
  forallb (fun m1 => forallb (fun e1 => forallb (fun m2 => forallb (fun e2 =>
    agree m1 e1 m2 e2) es2) ms2) es1) ms1.

Definition from_to (lo hi : Z) : list Z :=
  map (fun i => (lo + Z.of_nat i)%Z) (seq 0 (Z.to_nat (hi - lo + 1))).

End Binary64Check.

(** ** The preview recomputation as the engine evaluates it

    Lines 3754-3815 of updatePreview, and the same lines of
    displayMediaPreview (3440-3505), with every arithmetic operation
    rounded.  Comparisons, [Math.min] and [Math.max] are exact. *)
Module Render.

Import Binary64.
Local Open Scope Q_scope.

Definition targetRatio (a : Preview.AspectRatio) (imgW imgH : Q) : Q :=
  match a with
  | Preview.Original => fdiv imgW imgH
  | Preview.Ratio w h => fdiv w h
  | Preview.Decimal q => q
  end.

(** [boxWidth] and [boxHeight] from the stored [boxWidth] and
    [boxHeight]. *)
Definition box_for_ratio (imgW imgH targetRatio storedBoxWidth storedBoxHeight : Q)
    : Q * Q :=
  let possibleWidthFromHeight := fmul storedBoxHeight targetRatio in
  let possibleHeightFromWidth := fdiv storedBoxWidth targetRatio in
  if Qle_bool possibleWidthFromHeight imgW then
    (possibleWidthFromHeight, storedBoxHeight)
  else if Qle_bool possibleHeightFromWidth imgH then
    (storedBoxWidth, possibleHeightFromWidth)
  else if negb (Qle_bool (fdiv storedBoxWidth imgW) (fdiv storedBoxHeight imgH)) then
    (storedBoxWidth, fdiv storedBoxWidth targetRatio)
  else
    (fmul storedBoxHeight targetRatio, storedBoxHeight).

(** [clampedX, clampedY, clampedW, clampedH]. *)
Definition clamped_rect (imgW imgH targetRatio : Q) (c : CropEntry) : Preview.Rect :=
  let '(boxWidth, boxHeight) :=
    box_for_ratio imgW imgH targetRatio (boxWidth c) (boxHeight c) in
  let cropX := fsub (centerX c) (fdiv boxWidth 2) in
  let cropY := fsub (centerY c) (fdiv boxHeight 2) in
  let clampedX := Qmax 0 (Qmin cropX (fsub imgW boxWidth)) in
  let clampedY := Qmax 0 (Qmin cropY (fsub imgH boxHeight)) in
  let clampedW := Qmin boxWidth (fsub imgW clampedX) in
  let clampedH := Qmin boxHeight (fsub imgH clampedY) in
  Preview.mkRect clampedX clampedY clampedW clampedH.

(** [canvas.width = clampedW; canvas.height = clampedH]. *)
Definition canvas_size (R : Preview.Rect) : Z * Z :=
  (Ingest.canvas_dim (Preview.rw R), Ingest.canvas_dim (Preview.rh R)).

(** updatePreview once the file at the cursor has decoded with natural
    size [imgW] x [imgH]: the state it leaves, and the rectangle it draws
    when the item has a committed crop. *)
Definition updatePreview (a : Preview.AspectRatio) (imgW imgH : Q) (st : State)
    : State * option Preview.Rect :=
  (st,
   match Preview.updatePreview_shown st with
   | Preview.Shows _ (Some c) =>
       Some (clamped_rect imgW imgH (targetRatio a imgW imgH) c)
   | _ => None
   end).

End Render.

(** ** The default box of the modal as the engine evaluates it

    Lines 4593-4609 of openCropModal with every operation rounded. *)
Module OpenModal.

Import Binary64 CropModal.
Local Open Scope Q_scope.

(** [cropLeft, cropTop, cropWidth, cropHeight]. *)
Definition default_box (lay : Layout) (targetRatio : Q) : Box :=
  let imageWidth := displayWidth lay in
  let imageHeight := displayHeight lay in
  let '(cropWidth, cropHeight) :=
    if negb (Qle_bool (fdiv imageWidth imageHeight) targetRatio) then
      (fmul imageHeight targetRatio, imageHeight)
    else
      (imageWidth, fdiv imageWidth targetRatio) in
  mkBox (fadd (imageLeft lay) (fdiv (fsub imageWidth cropWidth) 2))
        (fadd (imageTop lay) (fdiv (fsub imageHeight cropHeight) 2))
        cropWidth cropHeight.

End OpenModal.

(** ** What the specification asks of the recomputation *)
Module RecomputeSpec.

Local Open Scope Q_scope.

(** In the words of the specification: deriving a box for [r] and then
    deriving again with the same [r] from the result yields the same
    box. *)
Definition idempotent (imgW imgH r storedBoxWidth storedBoxHeight : Q) : Prop :=
  let first := Render.box_for_ratio imgW imgH r storedBoxWidth storedBoxHeight in
  let second := Render.box_for_ratio imgW imgH r (fst first) (snd first) in
  fst second == fst first /\ snd second == snd first.

End RecomputeSpec.

(** * Statements *)

(** ** Reordering *)
Module ReorderFacts.

Import Reorder.

Ltac cases :=
  repeat (case_decide || case_match); simplify_eq/=; try lia; try done.

Lemma assign_lookup i v (cd : gmap nat CropEntry) k :
  assign i v cd !! k = if decide (i = k) then v else cd !! k.
Proof. unfold assign. by rewrite lookup_partial_alter. Qed.

Lemma swap_crops_lookup i j (cd : gmap nat CropEntry) k :
  swap_crops i j cd !! swap_at i j k = cd !! k.
Proof.
  unfold swap_crops, swap_at. rewrite !assign_lookup. cases.
Qed.

Lemma swap_items_length i j l : length (swap_items i j l) = length l.
Proof.
  unfold swap_items. repeat case_match; rewrite ?length_insert; done.
Qed.

Lemma swap_items_lookup i j (l : list File) k :
  i < length l -> j < length l ->
  swap_items i j l !! swap_at i j k = l !! k.
Proof.
  intros Hi Hj. unfold swap_items, swap_at.
  destruct (lookup_lt_is_Some_2 l i Hi) as [a Ha].
  destruct (lookup_lt_is_Some_2 l j Hj) as [b Hb].
  rewrite Ha, Hb.
  rewrite !list_lookup_insert, !length_insert.
  cases; try congruence; destruct_and?; simplify_eq; try lia; try congruence.
  all: try (exfalso; naive_solver lia).
Qed.

(** The loop that rebuilds [cropData] under new keys moves every entry to
    its new key, as long as no two old keys get the same new key. *)
Lemma rebuild_lookup (f : nat -> nat) (cd : gmap nat CropEntry) :
  (forall k1 k2, is_Some (cd !! k1) -> is_Some (cd !! k2) -> f k1 = f k2 -> k1 = k2) ->
  forall j c, rebuild f cd !! j = Some c <-> exists k, cd !! k = Some c /\ f k = j.
Proof.
  unfold rebuild.
  apply (map_fold_weak_ind
    (fun r (m : gmap nat CropEntry) =>
       (forall k1 k2, is_Some (m !! k1) -> is_Some (m !! k2) -> f k1 = f k2 -> k1 = k2) ->
       forall j c, r !! j = Some c <-> exists k, m !! k = Some c /\ f k = j)).
  - intros _ j c. rewrite lookup_empty. split; [done|].
    intros (k & Hk & _). by rewrite lookup_empty in Hk.
  - intros i x m r Hi IH Hinj j c.
    assert (Hinj' : forall k1 k2, is_Some (m !! k1) -> is_Some (m !! k2) ->
                                  f k1 = f k2 -> k1 = k2).
    { intros k1 k2 [y1 H1] [y2 H2] Hf. apply Hinj; [| |done].
      - destruct (decide (i = k1)) as [->|]; [congruence|].
        rewrite lookup_insert_ne; eauto.
      - destruct (decide (i = k2)) as [->|]; [congruence|].
        rewrite lookup_insert_ne; eauto. }
    specialize (IH Hinj').
    destruct (decide (f i = j)) as [<-|Hne].
    + rewrite lookup_insert_eq. split.
      * intros [= <-]. exists i. by rewrite lookup_insert_eq.
      * intros (k & Hk & Hf).
        assert (k = i) as ->.
        { apply Hinj; [by rewrite Hk|by rewrite lookup_insert_eq|done]. }
        rewrite lookup_insert_eq in Hk. done.
    + rewrite lookup_insert_ne by done. rewrite IH. split.
      * intros (k & Hk & Hf). exists k. split; [|done].
        rewrite lookup_insert_ne; [done|]. intros ->. congruence.
      * intros (k & Hk & Hf). exists k. split; [|done].
        destruct (decide (i = k)) as [->|]; [congruence|].
        by rewrite lookup_insert_ne in Hk.
Qed.

Lemma rebuild_Some f (cd : gmap nat CropEntry) k c :
  (forall k1 k2, is_Some (cd !! k1) -> is_Some (cd !! k2) -> f k1 = f k2 -> k1 = k2) ->
  cd !! k = Some c -> rebuild f cd !! f k = Some c.
Proof. intros Hinj Hk. apply rebuild_lookup; eauto. Qed.

Lemma rebuild_None f (cd : gmap nat CropEntry) j :
  (forall k1 k2, is_Some (cd !! k1) -> is_Some (cd !! k2) -> f k1 = f k2 -> k1 = k2) ->
  (forall k, f k = j -> cd !! k = None) -> rebuild f cd !! j = None.
Proof.
  intros Hinj Hno. apply eq_None_not_Some. intros [c Hc].
  apply rebuild_lookup in Hc as (k & Hk & Hf); [|done].
  rewrite (Hno k Hf) in Hk. done.
Qed.

Lemma to_first_keys_distinct index (cd : gmap nat CropEntry) :
  keys_distinct (fun idx => if decide (idx < index) then idx + 1 else idx)
                (delete index cd).
Proof.
  intros k1 k2 [c1 H1] [c2 H2] Hf.
  apply lookup_delete_Some in H1 as [? _].
  apply lookup_delete_Some in H2 as [? _].
  cases.
Qed.

Lemma to_last_keys_distinct index (cd : gmap nat CropEntry) :
  keys_distinct (fun idx => if decide (index < idx) then idx - 1 else idx)
                (delete index cd).
Proof.
  intros k1 k2 [c1 H1] [c2 H2] Hf.
  apply lookup_delete_Some in H1 as [? _].
  apply lookup_delete_Some in H2 as [? _].
  cases.
Qed.

Lemma to_first_items (l : list File) i item k :
  l !! i = Some item -> k < length l ->
  (item :: delete i l) !! to_first i k = l !! k.
Proof.
  intros Hi Hk. unfold to_first. cases.
  - replace (k + 1) with (S k) by lia. simpl.
    by rewrite list_lookup_delete_lt by lia.
  - destruct k as [|k]; [lia|]. simpl.
    by rewrite list_lookup_delete_ge by lia.
Qed.

Lemma to_last_items (l : list File) i item k :
  l !! i = Some item -> k < length l ->
  (delete i l ++ [item]) !! to_last (length l) i k = l !! k.
Proof.
  intros Hi Hk. unfold to_last.
  assert (Hlen : length (delete i l) = length l - 1).
  { apply length_delete. eauto. }
  cases.
  - rewrite lookup_app_r by lia. rewrite Hlen, Nat.sub_diag. done.
  - rewrite lookup_app_l by lia.
    rewrite list_lookup_delete_ge by lia. f_equal. lia.
  - rewrite lookup_app_l.
    + by rewrite list_lookup_delete_lt by lia.
    + apply lookup_lt_Some in Hi. lia.
Qed.

Lemma to_first_crops index (cd : gmap nat CropEntry) k c :
  cd !! k = Some c ->
  put_item_crop 0 (cd !! index)
    (rebuild (fun idx => if decide (idx < index) then idx + 1 else idx)
             (delete index cd)) !! to_first index k = Some c.
Proof.
  intros Hk. unfold to_first. destruct (decide (k = index)) as [->|Hne].
  - rewrite Hk. simpl. by rewrite lookup_insert_eq.
  - assert (Hrest : rebuild (fun idx => if decide (idx < index) then idx + 1 else idx)
                      (delete index cd)
                      !! (if decide (k < index) then k + 1 else k) = Some c).
    { apply (rebuild_Some _ (delete index cd) k c (to_first_keys_distinct index cd)).
      by rewrite lookup_delete_ne. }
    destruct (cd !! index); simpl; [|done].
    rewrite lookup_insert_ne; [done|]. cases.
Qed.

Lemma to_last_crops n index (cd : gmap nat CropEntry) k c :
  index < n - 1 -> k < n ->
  cd !! k = Some c ->
  put_item_crop (n - 1) (cd !! index)
    (rebuild (fun idx => if decide (index < idx) then idx - 1 else idx)
             (delete index cd)) !! to_last n index k = Some c.
Proof.
  intros Hi Hn Hk. unfold to_last. destruct (decide (k = index)) as [->|Hne].
  - rewrite Hk. simpl. by rewrite lookup_insert_eq.
  - assert (Hrest : rebuild (fun idx => if decide (index < idx) then idx - 1 else idx)
                      (delete index cd)
                      !! (if decide (index < k) then k - 1 else k) = Some c).
    { apply (rebuild_Some _ (delete index cd) k c (to_last_keys_distinct index cd)).
      by rewrite lookup_delete_ne. }
    destruct (cd !! index); simpl; [|done].
    rewrite lookup_insert_ne; [done|]. cases.
Qed.

(** Without entries past the end of the list, an item without a crop
    stays without one. *)
Lemma to_first_crops_None index (cd : gmap nat CropEntry) k :
  cd !! k = None ->
  put_item_crop 0 (cd !! index)
    (rebuild (fun idx => if decide (idx < index) then idx + 1 else idx)
             (delete index cd)) !! to_first index k = None.
Proof.
  intros Hk. unfold to_first. destruct (decide (k = index)) as [->|Hne].
  - rewrite Hk. simpl. apply rebuild_None; [apply to_first_keys_distinct|].
    intros j Hj. destruct (decide (j = index)) as [->|].
    + apply lookup_delete_eq.
    + cases.
  - assert (Hrest : rebuild (fun idx => if decide (idx < index) then idx + 1 else idx)
                      (delete index cd)
                      !! (if decide (k < index) then k + 1 else k) = None).
    { apply rebuild_None; [apply to_first_keys_distinct|].
      intros j Hj. destruct (decide (j = index)) as [->|].
      - apply lookup_delete_eq.
      - rewrite lookup_delete_ne by done.
        assert (j = k) as -> by cases. done. }
    destruct (cd !! index); simpl; [|done].
    rewrite lookup_insert_ne; [done|]. cases.
Qed.

Lemma to_last_crops_None n index (cd : gmap nat CropEntry) k :
  index < n - 1 -> k < n ->
  (forall j, n <= j -> cd !! j = None) ->
  cd !! k = None ->
  put_item_crop (n - 1) (cd !! index)
    (rebuild (fun idx => if decide (index < idx) then idx - 1 else idx)
             (delete index cd)) !! to_last n index k = None.
Proof.
  intros Hi Hn Hstale Hk. unfold to_last. destruct (decide (k = index)) as [->|Hne].
  - rewrite Hk. simpl. apply rebuild_None; [apply to_last_keys_distinct|].
    intros j Hj. destruct (decide (j = index)) as [->|].
    + apply lookup_delete_eq.
    + rewrite lookup_delete_ne by done. apply Hstale. cases.
  - assert (Hrest : rebuild (fun idx => if decide (index < idx) then idx - 1 else idx)
                      (delete index cd)
                      !! (if decide (index < k) then k - 1 else k) = None).
    { apply rebuild_None; [apply to_last_keys_distinct|].
      intros j Hj. destruct (decide (j = index)) as [->|].
      - apply lookup_delete_eq.
      - rewrite lookup_delete_ne by done.
        assert (j = k) as -> by cases. done. }
    destruct (cd !! index); simpl; [|done].
    rewrite lookup_insert_ne; [done|]. cases.
Qed.

Section Run.

Variable st : State.
Variable i : nat.
Hypothesis Hi : i < length (selectedFiles st).

Let n := length (selectedFiles st).

Lemma run_items op k :
  k < n ->
  selectedFiles (run op i st) !! new_index op n i k = selectedFiles st !! k.
Proof.
  intros Hk. subst n.
  destruct (lookup_lt_is_Some_2 _ _ Hi) as [item Hitem].
  destruct op; simpl; unfold moveMediaUp, moveMediaDown, moveMediaToFirst,
    moveMediaToLast; case_decide; simpl; try done.
  - apply swap_items_lookup; lia.
  - apply swap_items_lookup; lia.
  - rewrite Hitem. simpl. by apply to_first_items.
  - rewrite Hitem. simpl. by apply to_last_items.
Qed.

Lemma run_length op : length (selectedFiles (run op i st)) = n.
Proof.
  subst n.
  destruct (lookup_lt_is_Some_2 _ _ Hi) as [item Hitem].
  destruct op; simpl; unfold moveMediaUp, moveMediaDown, moveMediaToFirst,
    moveMediaToLast; case_decide; simpl; try done.
  - apply swap_items_length.
  - apply swap_items_length.
  - rewrite Hitem. simpl. rewrite length_delete by eauto. lia.
  - rewrite Hitem. simpl. rewrite length_app, length_delete by eauto. simpl. lia.
Qed.

Lemma run_crops op k c :
  k < n ->
  cropData st !! k = Some c ->
  cropData (run op i st) !! new_index op n i k = Some c.
Proof.
  intros Hk Hc. subst n.
  destruct (lookup_lt_is_Some_2 _ _ Hi) as [item Hitem].
  destruct op; simpl; unfold moveMediaUp, moveMediaDown, moveMediaToFirst,
    moveMediaToLast; case_decide; simpl; try done.
  - by rewrite swap_crops_lookup.
  - by rewrite swap_crops_lookup.
  - rewrite Hitem. simpl. by apply to_first_crops.
  - rewrite Hitem. simpl.
    rewrite length_app, length_delete by eauto. simpl.
    replace (length (selectedFiles st) - 1 + 1 - 1)
      with (length (selectedFiles st) - 1) by lia.
    by apply to_last_crops.
Qed.

Lemma run_no_crop op k :
  k < n ->
  (forall j, n <= j -> cropData st !! j = None) ->
  cropData st !! k = None ->
  cropData (run op i st) !! new_index op n i k = None.
Proof.
  intros Hk Hstale Hc. subst n.
  destruct (lookup_lt_is_Some_2 _ _ Hi) as [item Hitem].
  destruct op; simpl; unfold moveMediaUp, moveMediaDown, moveMediaToFirst,
    moveMediaToLast; case_decide; simpl; try done.
  - by rewrite swap_crops_lookup.
  - by rewrite swap_crops_lookup.
  - rewrite Hitem. simpl. by apply to_first_crops_None.
  - rewrite Hitem. simpl.
    rewrite length_app, length_delete by eauto. simpl.
    replace (length (selectedFiles st) - 1 + 1 - 1)
      with (length (selectedFiles st) - 1) by lia.
    by apply to_last_crops_None.
Qed.

Lemma run_cursor op :
  currentCarouselIndex (run op i st) = new_index op n i (currentCarouselIndex st).
Proof.
  subst n.
  destruct (lookup_lt_is_Some_2 _ _ Hi) as [item Hitem].
  destruct op; simpl; unfold moveMediaUp, moveMediaDown, moveMediaToFirst,
    moveMediaToLast; case_decide; simpl; try done.
  - rewrite Hitem. simpl. unfold to_first. cases.
  - rewrite Hitem. simpl.
    rewrite length_app, length_delete by eauto. simpl. unfold to_last. cases.
Qed.

Lemma new_index_range op k : k < n -> new_index op n i k < n.
Proof.
  intros Hk. destruct op; simpl; unfold swap_at, to_first, to_last, id; cases.
Qed.

Lemma new_index_inj op k1 k2 :
  k1 < n -> k2 < n -> new_index op n i k1 = new_index op n i k2 -> k1 = k2.
Proof.
  intros H1 H2. destruct op; simpl; unfold swap_at, to_first, to_last, id; cases.
Qed.

End Run.

(** C4.  moveMediaUp, moveMediaDown, moveMediaToFirst and moveMediaToLast
    on a position [i] of the list permute the items by an explicit
    old-index to new-index map; every crop entry stored for an item is
    found again, unchanged, at the new index of that item, and the cursor is
    sent through the same map, so it shows the same item as before and
    follows the moved item when it was on it. *)
Theorem reorder_keeps_crops_and_cursor (op : Op) (i : nat) (st : State) :
  i < length (selectedFiles st) ->
  let n := length (selectedFiles st) in
  let st' := run op i st in
  let pi := new_index op n i in
  length (selectedFiles st') = n /\
  (forall k, k < n -> pi k < n) /\
  (forall k1 k2, k1 < n -> k2 < n -> pi k1 = pi k2 -> k1 = k2) /\
  (forall k, k < n -> selectedFiles st' !! pi k = selectedFiles st !! k) /\
  (forall k c, k < n -> cropData st !! k = Some c -> cropData st' !! pi k = Some c) /\
  (forall k c, k < n -> has_crop (cropData st) k = Some c ->
               has_crop (cropData st') (pi k) = Some c) /\
  ((forall j, n <= j -> cropData st !! j = None) ->
   forall k, k < n -> cropData st' !! pi k = cropData st !! k) /\
  currentCarouselIndex st' = pi (currentCarouselIndex st) /\
  (currentCarouselIndex st < n ->
   selectedFiles st' !! currentCarouselIndex st'
   = selectedFiles st !! currentCarouselIndex st) /\
  (currentCarouselIndex st = i -> currentCarouselIndex st' = pi i).
Proof.
  intros Hi n st' pi. subst n st' pi.
  split; [by apply run_length|].
  split; [intros k; by apply new_index_range|].
  split; [intros k1 k2; by apply new_index_inj|].
  split; [intros k; by apply run_items|].
  split; [intros k c; by apply run_crops|].
  split.
  { intros k c Hk. unfold has_crop.
    destruct (cropData st !! k) as [c0|] eqn:Hc; [|done].
    rewrite (run_crops st i Hi op k c0 Hk Hc). done. }
  split.
  { intros Hstale k Hk. destruct (cropData st !! k) as [c|] eqn:Hc.
    - by apply run_crops.
    - by apply run_no_crop. }
  split; [by apply run_cursor|].
  split.
  - intros Hc. rewrite run_cursor by done. by apply run_items.
  - intros <-. by apply run_cursor.
Qed.

Lemma reorder_keeps_crops_and_cursor_witness :
  1 < length (selectedFiles Demo.crop_on_b) /\
  cropData (moveMediaToFirst 1 Demo.crop_on_b) !! 0 = Some Demo.cropB.
Proof.
  assert (H : 1 < length (selectedFiles Demo.crop_on_b)) by (simpl; lia).
  split; [exact H|].
  destruct (reorder_keeps_crops_and_cursor ToFirst 1 Demo.crop_on_b H)
    as (_ & _ & _ & _ & Hcrop & _).
  apply (Hcrop 1 Demo.cropB); [simpl; lia|reflexivity].
Defined.

(** C1, as the code has it.  removeMedia at a position [i] of the list
    takes the item out, leaves the items below [i] where they are and
    shifts the items above [i] down by one; the cursor is set to 0 whatever
    it pointed at. *)
Theorem removeMedia_shifts_and_resets (i : nat) (st : State) :
  i < length (selectedFiles st) ->
  let st' := removeMedia i st in
  length (selectedFiles st') = length (selectedFiles st) - 1 /\
  (forall k, k < i -> selectedFiles st' !! k = selectedFiles st !! k) /\
  (forall k, i < k -> selectedFiles st' !! (k - 1) = selectedFiles st !! k) /\
  (forall k, k <> i ->
     selectedFiles st' !! RemovalSpec.after_removal i k = selectedFiles st !! k) /\
  currentCarouselIndex st' = 0.
Proof.
  intros Hi st'. subst st'. unfold removeMedia. simpl.
  split; [apply length_delete; by apply lookup_lt_is_Some_2|].
  split; [intros k Hk; by apply list_lookup_delete_lt|].
  split.
  { intros k Hk. rewrite list_lookup_delete_ge by lia. f_equal. lia. }
  split; [|done].
  intros k Hk. unfold RemovalSpec.after_removal. case_decide.
  - by apply list_lookup_delete_lt.
  - rewrite list_lookup_delete_ge by lia. f_equal. lia.
Qed.

Lemma removeMedia_shifts_and_resets_witness :
  0 < length (selectedFiles Demo.a_b_c) /\
  selectedFiles (removeMedia 0 Demo.a_b_c) !! (2 - 1) = Some Demo.imgC /\
  currentCarouselIndex (removeMedia 0 Demo.a_b_c) = 0.
Proof.
  assert (H : 0 < length (selectedFiles Demo.a_b_c)) by (simpl; lia).
  split; [exact H|].
  destruct (removeMedia_shifts_and_resets 0 Demo.a_b_c H)
    as (_ & _ & Hup & _ & Hcur).
  split; [|exact Hcur].
  rewrite (Hup 2) by lia. reflexivity.
Defined.

(** The handler never mentions [cropData]: every entry stays under the
    index it had. *)
Lemma removeMedia_leaves_cropData (i : nat) (st : State) :
  cropData (removeMedia i st) = cropData st.
Proof. reflexivity. Qed.

(** C1, as the specification has it, fails on [A(crop), B, C(crop)] with
    the carousel on [C]: after removing [A], the entry of [C] is not at the
    new index of [C], the entry of [A] sits on [B], and the carousel shows
    [B]. *)
Lemma removeMedia_claim_fails :
  ~ RemovalSpec.remaps_crops 0 Demo.a_b_c /\
  ~ RemovalSpec.keeps_cursor 0 Demo.a_b_c /\
  selectedFiles (removeMedia 0 Demo.a_b_c) = [Demo.imgB; Demo.imgC] /\
  cropData (removeMedia 0 Demo.a_b_c) !! 0 = Some Demo.cropA /\
  cropData (removeMedia 0 Demo.a_b_c) !! 1 = None /\
  currentCarouselIndex (removeMedia 0 Demo.a_b_c) = 0.
Proof.
  split.
  { intros H. specialize (H 2 Demo.cropC).
    assert (Hc : cropData (removeMedia 0 Demo.a_b_c) !! 1 = Some Demo.cropC).
    { apply H; [simpl; lia|lia|reflexivity]. }
    vm_compute in Hc. discriminate Hc. }
  split.
  { intros H. unfold RemovalSpec.keeps_cursor in H.
    assert (Hc : selectedFiles (removeMedia 0 Demo.a_b_c) !! 0 = Some Demo.imgC).
    { apply H; simpl; lia. }
    vm_compute in Hc. discriminate Hc. }
  repeat split; reflexivity.
Qed.

End ReorderFacts.

(** ** Ingestion *)
Module IngestFacts.

Import Ingest.

Lemma Qle_bool_false (a b : Q) : Qle_bool a b = false -> (b < a)%Q.
Proof.
  intros H. apply Qnot_le_lt. intros Hle.
  apply Qle_bool_iff in Hle. congruence.
Qed.

Lemma canvas_dim_floor (v : Q) :
  (0 <= v)%Q -> (v <= 1080)%Q ->
  canvas_dim v = Qfloor v /\ (0 <= canvas_dim v <= 1080)%Z.
Proof.
  intros H0 H1.
  assert (Hlo : (0 <= Qfloor v)%Z).
  { change 0%Z with (Qfloor 0). by apply Qfloor_resp_le. }
  assert (Hhi : (Qfloor v <= 1080)%Z).
  { change 1080%Z with (Qfloor 1080). by apply Qfloor_resp_le. }
  assert (Heq : canvas_dim v = Qfloor v).
  { unfold canvas_dim. destruct v as [n d]. simpl in *.
    unfold Qle in H0. simpl in H0.
    rewrite Z.quot_div_nonneg by lia.
    apply Z.mod_small. split; [done|].
    eapply Z.le_lt_trans; [exact Hhi|]. reflexivity. }
  rewrite Heq. done.
Qed.

Lemma resize_dims_fit (w h : Q) :
  (0 < w)%Q -> (0 < h)%Q ->
  (0 < (resize_dims w h).1)%Q /\ (0 < (resize_dims w h).2)%Q /\
  ((resize_dims w h).1 <= 1080)%Q /\ ((resize_dims w h).2 <= 1080)%Q /\
  ((resize_dims w h).1 * h == (resize_dims w h).2 * w)%Q.
Proof.
  intros Hw Hh. unfold resize_dims, maxDimension.
  destruct (Qle_bool w h) eqn:Ewh; simpl.
  - apply Qle_bool_iff in Ewh.
    destruct (Qle_bool h 1080) eqn:Eh; simpl.
    + apply Qle_bool_iff in Eh. repeat split; try lra.
    + apply Qle_bool_false in Eh.
      repeat split; try lra.
      * apply Qlt_shift_div_l; lra.
      * apply Qle_shift_div_r; [lra|]. nra.
      * field. lra.
  - apply Qle_bool_false in Ewh.
    destruct (Qle_bool w 1080) eqn:Ew; simpl.
    + apply Qle_bool_iff in Ew.
      destruct (Qle_bool h 1080) eqn:Eh; simpl.
      * repeat split; try lra.
      * apply Qle_bool_false in Eh. lra.
    + apply Qle_bool_false in Ew.
      repeat split; try lra.
      * apply Qlt_shift_div_l; lra.
      * apply Qle_shift_div_r; [lra|]. nra.
      * field. lra.
Qed.

(** The integer part of a quotient of two integers. *)
Lemma canvas_dim_quotient (a b : Z) :
  (0 <= a)%Z -> (0 < b)%Z -> (a <= 1080 * b)%Z ->
  canvas_dim (inject_Z a / inject_Z b) = (a / b)%Z.
Proof.
  intros Ha Hb Hab.
  assert (Hqb : (0 < inject_Z b)%Q) by (rewrite <- (Zlt_Qlt 0); lia).
  assert (Hqa : (0 <= inject_Z a)%Q) by (rewrite <- (Zle_Qle 0); lia).
  assert (Hq : (inject_Z a <= 1080 * inject_Z b)%Q).
  { change 1080%Q with (inject_Z 1080). rewrite <- inject_Z_mult, <- Zle_Qle. lia. }
  destruct (canvas_dim_floor (inject_Z a / inject_Z b)) as [E _].
  - apply Qle_shift_div_l; lra.
  - apply Qle_shift_div_r; lra.
  - rewrite E. destruct b as [|b|b]; try lia.
    unfold Qdiv, Qinv, Qmult, inject_Z, Qfloor. simpl.
    by rewrite Z.mul_1_r.
Qed.

(** The sides of the canvas of resizeImage for an image of
    [w] x [h] pixels. *)
Lemma canvas_of_resize_dims (w h : Z) :
  (0 < w)%Z -> (0 < h)%Z ->
  let wh := resize_dims (inject_Z w) (inject_Z h) in
  (canvas_dim (fst wh), canvas_dim (snd wh))
  = if decide (Z.max w h <= 1080)%Z then (w, h)
    else (w * 1080 / Z.max w h, h * 1080 / Z.max w h)%Z.
Proof.
  intros Hw Hh. unfold resize_dims, maxDimension. cbn zeta.
  assert (Ew : forall z : Z, (0 < z)%Z -> canvas_dim (inject_Z z) = (z mod 2 ^ 32)%Z).
  { intros z Hz. unfold canvas_dim, inject_Z. simpl. by rewrite Z.quot_1_r. }
  assert (E1080 : canvas_dim 1080 = 1080%Z) by reflexivity.
  destruct (Qle_bool (inject_Z w) (inject_Z h)) eqn:Ewh; simpl.
  - apply Qle_bool_iff in Ewh. rewrite <- Zle_Qle in Ewh.
    rewrite Z.max_r by lia.
    destruct (Qle_bool (inject_Z h) 1080) eqn:Eh; simpl.
    + apply Qle_bool_iff in Eh. change 1080%Q with (inject_Z 1080) in Eh.
      rewrite <- Zle_Qle in Eh. rewrite decide_True by lia.
      rewrite !Ew by lia. by rewrite !Z.mod_small by lia.
    + apply Qle_bool_false in Eh. change 1080%Q with (inject_Z 1080) in Eh.
      rewrite <- Zlt_Qlt in Eh. rewrite decide_False by lia.
      rewrite E1080. f_equal.
      * change 1080%Q with (inject_Z 1080). rewrite <- inject_Z_mult.
        apply canvas_dim_quotient; nia.
      * rewrite (Z.mul_comm _ 1080), Z.div_mul by lia. done.
  - apply Qle_bool_false in Ewh. rewrite <- Zlt_Qlt in Ewh.
    rewrite Z.max_l by lia.
    destruct (Qle_bool (inject_Z w) 1080) eqn:Ew1; simpl.
    + apply Qle_bool_iff in Ew1. change 1080%Q with (inject_Z 1080) in Ew1.
      rewrite <- Zle_Qle in Ew1.
      destruct (Qle_bool (inject_Z h) 1080) eqn:Eh; simpl.
      * rewrite decide_True by lia. rewrite !Ew by lia. by rewrite !Z.mod_small by lia.
      * apply Qle_bool_false in Eh. change 1080%Q with (inject_Z 1080) in Eh.
        rewrite <- Zlt_Qlt in Eh. lia.
    + apply Qle_bool_false in Ew1. change 1080%Q with (inject_Z 1080) in Ew1.
      rewrite <- Zlt_Qlt in Ew1. rewrite decide_False by lia.
      rewrite E1080. f_equal.
      * rewrite (Z.mul_comm _ 1080), Z.div_mul by lia. done.
      * change 1080%Q with (inject_Z 1080). rewrite <- inject_Z_mult.
        apply canvas_dim_quotient; nia.
Qed.

Lemma scaled_sides (w h : Z) :
  (0 < w)%Z -> (0 < h)%Z ->
  let m := Z.max w h in
  let cw := if decide (m <= 1080)%Z then w else (w * 1080 / m)%Z in
  let ch := if decide (m <= 1080)%Z then h else (h * 1080 / m)%Z in
  Z.max cw ch = Z.min 1080 m /\ (Z.abs (cw * h - ch * w) < m)%Z.
Proof.
  intros Hw Hh m cw ch. subst cw ch.
  case_decide as Hm; [split; lia|].
  assert (Hm0 : (0 < m)%Z) by lia.
  pose proof (Z.mul_div_le (w * 1080) m Hm0) as Hw1.
  pose proof (Z.mul_succ_div_gt (w * 1080) m Hm0) as Hw2.
  pose proof (Z.mul_div_le (h * 1080) m Hm0) as Hh1.
  pose proof (Z.mul_succ_div_gt (h * 1080) m Hm0) as Hh2.
  set (a := (w * 1080 / m)%Z) in *. set (b := (h * 1080 / m)%Z) in *.
  destruct (Z.max_spec w h) as [[Hlt E]|[Hle E]]; fold m in E.
  - assert (Eb : b = 1080%Z).
    { unfold b. rewrite E, (Z.mul_comm h), Z.div_mul by lia. done. }
    clearbody a b. subst b. rewrite E in *. split; nia.
  - assert (Ea : a = 1080%Z).
    { unfold a. rewrite E, (Z.mul_comm w), Z.div_mul by lia. done. }
    clearbody a b. subst a. rewrite E in *. split; nia.
Qed.

Section Browser.

Variable decode : File -> option (Z * Z).
Variable toBlob : Payload -> Z -> Z -> DrawCall -> string -> Q -> option Z.

Lemma process_all_fst (files : list File) :
  (process_all decode toBlob files).1
  = map (fun f => (process_one decode toBlob f).1) files.
Proof.
  induction files as [|f files IH]; [done|]. simpl.
  destruct (process_one decode toBlob f) as [one ev].
  destruct (process_all decode toBlob files) as [more evs].
  simpl in *. by rewrite IH.
Qed.

Lemma handleMediaSelect_accepts (files : list File) (st : State) :
  length files <= 20 ->
  handleMediaSelect decode toBlob files st
  = (mkState (process_all decode toBlob files).1 (cropData st)
             (currentCarouselIndex st),
     (process_all decode toBlob files).2).
Proof.
  intros Hlen. unfold handleMediaSelect.
  case_decide; [lia|]. by destruct (process_all decode toBlob files).
Qed.

Lemma handleMediaSelect_rejects (files : list File) (st : State) :
  20 < length files ->
  handleMediaSelect decode toBlob files st
  = (st, [Toast "Maximum 20 images allowed" "error"]).
Proof. intros Hlen. unfold handleMediaSelect. by case_decide; [|lia]. Qed.

(** What is pushed for an image above the threshold that decoded, when
    the canvas yields a blob. *)
Lemma process_one_resized (file : File) (w h : Z) :
  String.prefix "image/" (type file) = true ->
  (MAX_FILE_SIZE < size file)%Z ->
  decode file = Some (w, h) ->
  let wh := resize_dims (inject_Z w) (inject_Z h) in
  forall sz : Z,
    toBlob (payload file) (canvas_dim (fst wh)) (canvas_dim (snd wh))
           (DrawWhole (fst wh) (snd wh)) (type file) 0.9%Q = Some sz ->
    fst (process_one decode toBlob file)
    = mkFile (name file) (type file) sz
             (Encoded (payload file) (canvas_dim (fst wh)) (canvas_dim (snd wh))
                      (DrawWhole (fst wh) (snd wh)) (type file) 0.9%Q).
Proof.
  intros Hty Hsz Hdec wh sz Hsome. subst wh.
  unfold process_one, processImage, resizeImage.
  rewrite Hty, Hdec, decide_True by exact Hsz.
  destruct (resize_dims (inject_Z w) (inject_Z h)) as [width height].
  cbn [fst snd] in *. by rewrite Hsome.
Qed.



(** C10.  handleMediaSelect never writes [cropData] or
    [currentCarouselIndex]: an accepted batch replaces the list of files
    and nothing else, so an entry stored under an index is found under the
    same index afterwards and the preview applies it to the new file at
    that index; and the cursor can point past the end of the new list. *)
Theorem handleMediaSelect_keeps_crops_and_cursor (files : list File) (st : State) :
  let st' := fst (handleMediaSelect decode toBlob files st) in
  cropData st' = cropData st /\
  currentCarouselIndex st' = currentCarouselIndex st /\
  (forall i, has_crop (cropData st') i = has_crop (cropData st) i) /\
  (length files <= 20 ->
   selectedFiles st' = fst (process_all decode toBlob files) /\
   length (selectedFiles st') = length files /\
   (forall f, selectedFiles st' !! currentCarouselIndex st = Some f ->
      Preview.updatePreview_shown st'
      = Preview.Shows f (has_crop (cropData st) (currentCarouselIndex st))) /\
   (0 < length files <= currentCarouselIndex st ->
      Preview.updatePreview_shown st' = Preview.ReaderThrows)).
Proof.
  intros st'.
  assert (Hframe : cropData st' = cropData st /\
                   currentCarouselIndex st' = currentCarouselIndex st).
  { subst st'. unfold handleMediaSelect. case_decide; [done|].
    by destruct (process_all decode toBlob files). }
  destruct Hframe as [Hcd Hcur].
  split; [done|]. split; [done|].
  split; [intros i; by rewrite Hcd|].
  intros Hlen.
  assert (Hfiles : selectedFiles st' = fst (process_all decode toBlob files)).
  { subst st'. by rewrite handleMediaSelect_accepts. }
  assert (Hn : length (selectedFiles st') = length files).
  { rewrite Hfiles, process_all_fst. apply length_map. }
  split; [done|]. split; [done|]. split.
  - intros f Hf. unfold Preview.updatePreview_shown.
    rewrite Hcur, Hcd, Hf.
    destruct (selectedFiles st'); [by rewrite lookup_nil in Hf|done].
  - intros [Hpos Hpast]. unfold Preview.updatePreview_shown.
    rewrite Hcur.
    assert (Hnone : selectedFiles st' !! currentCarouselIndex st = None).
    { apply lookup_ge_None. lia. }
    rewrite Hnone.
    destruct (selectedFiles st'); [simpl in Hn; lia|done].
Qed.

End Browser.



(** The 4000 x 3000 image of 10 MB comes out 1080 x 810. *)
Lemma big_image_resized :
  fst (process_one Demo.decode_4000x3000 Demo.blob_600000 Demo.big)
  = mkFile "big.jpg" "image/jpeg" 600000
           (Encoded (Bytes 7) 1080 810
                    (DrawWhole 1080 ((3000 * 1080) / 4000)) "image/jpeg" 0.9%Q).
Proof. reflexivity. Qed.



(** C3.  The code differs from the additive ingestion of the
    specification: a batch replaces the selection instead of extending it,
    and only the size of the batch is compared with 20.  With [A] selected,
    choosing [B] leaves [B] alone; with fifteen files selected, ten more are
    accepted and become the whole selection. *)
Theorem handleMediaSelect_replaces_selection :
  selectedFiles (fst (handleMediaSelect Demo.no_decode Demo.no_blob [Demo.imgB]
                        (mkState [Demo.imgA] ∅ 0))) = [Demo.imgB] /\
  selectedFiles (fst (IngestSpec.ingest Demo.no_decode Demo.no_blob [Demo.imgB]
                        (mkState [Demo.imgA] ∅ 0))) = [Demo.imgA; Demo.imgB] /\
  handleMediaSelect Demo.no_decode Demo.no_blob Demo.ten_more Demo.fifteen
  = (mkState Demo.ten_more ∅ 0, []) /\
  IngestSpec.ingest Demo.no_decode Demo.no_blob Demo.ten_more Demo.fifteen
  = (Demo.fifteen, [Toast "Maximum 20 images allowed" "error"]) /\
  (forall decode toBlob files st,
     (20 < length files ->
      handleMediaSelect decode toBlob files st
      = (st, [Toast "Maximum 20 images allowed" "error"])) /\
     (length files <= 20 ->
      selectedFiles (fst (handleMediaSelect decode toBlob files st))
      = fst (process_all decode toBlob files))).
Proof.
  split; [reflexivity|]. split; [reflexivity|].
  split; [reflexivity|]. split; [reflexivity|].
  intros decode toBlob files st. split.
  - apply handleMediaSelect_rejects.
  - intros Hlen. by rewrite handleMediaSelect_accepts.
Qed.

Lemma handleMediaSelect_keeps_crops_and_cursor_witness :
  length [Demo.imgB] <= 20 /\
  0 < length [Demo.imgB] <= currentCarouselIndex Demo.a_b_c /\
  Preview.updatePreview_shown
    (fst (handleMediaSelect Demo.no_decode Demo.no_blob [Demo.imgB] Demo.a_b_c))
  = Preview.ReaderThrows.
Proof.
  assert (H20 : length [Demo.imgB] <= 20) by (simpl; lia).
  assert (Hpast : 0 < length [Demo.imgB] <= currentCarouselIndex Demo.a_b_c)
    by (simpl; lia).
  split; [exact H20|]. split; [exact Hpast|].
  destruct (handleMediaSelect_keeps_crops_and_cursor Demo.no_decode Demo.no_blob
              [Demo.imgB] Demo.a_b_c) as (_ & _ & _ & H).
  destruct (H H20) as (_ & _ & _ & Hthrows).
  exact (Hthrows Hpast).
Defined.

(** After three files with the carousel on the third, choosing a single
    file leaves the cursor at 2, past the end of the new list. *)
Lemma cursor_past_new_selection :
  let st' := fst (handleMediaSelect Demo.no_decode Demo.no_blob [Demo.imgB] Demo.a_b_c) in
  selectedFiles st' = [Demo.imgB] /\
  currentCarouselIndex st' = 2 /\
  cropData st' !! 0 = Some Demo.cropA /\
  Preview.updatePreview_shown st' = Preview.ReaderThrows.
Proof. repeat split; reflexivity. Qed.

End IngestFacts.

(** ** Preview recomputation *)
Module PreviewFacts.

Import Preview.
Local Open Scope Q_scope.

Ltac split_minmax :=
  unfold Qmin, Qmax, GenericMinMax.gmin, GenericMinMax.gmax in *;
  repeat match goal with
  | |- context [Qcompare ?a ?b] => destruct (Qcompare_spec a b)
  | H : context [Qcompare ?a ?b] |- _ => destruct (Qcompare_spec a b)
  end.

Ltac bool_cases :=
  repeat match goal with
  | |- context [Qle_bool ?a ?b] =>
      let E := fresh "E" in
      destruct (Qle_bool a b) eqn:E;
      [apply Qle_bool_iff in E | apply IngestFacts.Qle_bool_false in E]
  end.

Lemma box_forms imgW imgH r c :
  box_for_ratio imgW imgH r c = (boxHeight c * r, boxHeight c) \/
  box_for_ratio imgW imgH r c = (boxWidth c, boxWidth c / r).
Proof.
  unfold box_for_ratio. bool_cases; simpl; auto.
Qed.

(** The rectangle drawn, in terms of the recomputed box. *)
Lemma clamped_rect_unfold imgW imgH r c :
  let bw := fst (box_for_ratio imgW imgH r c) in
  let bh := snd (box_for_ratio imgW imgH r c) in
  let px := Qmax 0 (Qmin (centerX c - bw / 2) (imgW - bw)) in
  let py := Qmax 0 (Qmin (centerY c - bh / 2) (imgH - bh)) in
  clamped_rect imgW imgH r c
  = mkRect px py (Qmin bw (imgW - px)) (Qmin bh (imgH - py)).
Proof.
  unfold clamped_rect. by destruct (box_for_ratio imgW imgH r c).
Qed.

(** The 800 x 600 window centred at (500, 500) of a 2000 x 1500 image,
    drawn at 1:1, is the 600 x 600 square from (200, 200). *)
Lemma square_of_cropA :
  let R := clamped_rect 2000 1500 1 Demo.cropA in
  rx R == 200 /\ ry R == 200 /\ rw R == 600 /\ rh R == 600.
Proof. vm_compute. repeat split; discriminate. Qed.

End PreviewFacts.

(** ** The arithmetic of the engine *)
Module Binary64Facts.

Import Binary64.
Local Open Scope Q_scope.

Lemma pow2_pos (k : Z) : 0 < 2 ^ k.
Proof. apply Qpower_0_lt. reflexivity. Qed.

Lemma pow2_succ (k : Z) : 2 ^ (k + 1) == 2 * 2 ^ k.
Proof. rewrite Qpower_plus by discriminate. change (2 ^ 1) with 2. ring. Qed.

Lemma pow2_le (n m : Z) : (n <= m)%Z -> 2 ^ n <= 2 ^ m.
Proof. intros H. apply Qpower_le_compat_l; [exact H | discriminate]. Qed.

Lemma nearest_even_error (y : Q) :
  Qabs (inject_Z (nearest_even y) - y) <= 1 # 2.
Proof.
  unfold nearest_even.
  pose proof (Qfloor_le y) as Hlo.
  pose proof (Qlt_floor y) as Hhi.
  rewrite inject_Z_plus in Hhi. change (inject_Z 1) with 1 in Hhi.
  apply Qabs_Qle_condition.
  destruct (Qcompare_spec (y - inject_Z (Qfloor y)) (1 # 2)) as [E|E|E];
    [destruct (Z.even (Qfloor y))| |];
    rewrite ?inject_Z_plus; change (inject_Z 1) with 1; split; lra.
Qed.

(** The integers [2 ^ Z.log2 n] as rationals. *)
Lemma log2_bounds (n : Z) :
  (0 < n)%Z -> 2 ^ Z.log2 n <= inject_Z n /\ inject_Z n < 2 ^ (Z.log2 n + 1).
Proof.
  intros Hn. destruct (Z.log2_spec n Hn) as [Hlo Hhi].
  pose proof (Z.log2_nonneg n) as H0.
  split.
  - change 2 with (inject_Z 2) at 1. rewrite <- Zpower_Qpower by exact H0.
    rewrite <- Zle_Qle. exact Hlo.
  - change 2 with (inject_Z 2) at 1. rewrite <- Zpower_Qpower by lia.
    rewrite <- Zlt_Qlt. exact Hhi.
Qed.

Lemma exponent_spec (x : Q) :
  ~ x == 0 ->
  2 ^ exponent x <= Qabs x /\ Qabs x < 2 ^ (exponent x + 1).
Proof.
  intros Hx. unfold exponent.
  set (a := Qabs x).
  assert (Ha : 0 < a).
  { unfold a. destruct (Qlt_le_dec 0 (Qabs x)) as [H|H]; [exact H|].
    exfalso. apply Hx. pose proof (Qabs_nonneg x).
    assert (E : Qabs x == 0) by lra.
    apply Qabs_Qle_condition in H. lra. }
  assert (Hn : (0 < Qnum a)%Z).
  { unfold Qlt in Ha. simpl in Ha. lia. }
  destruct (log2_bounds (Qnum a) Hn) as [Hn1 Hn2].
  destruct (log2_bounds (Zpos (Qden a)) eq_refl) as [Hd1 Hd2].
  assert (Ea : a == inject_Z (Qnum a) / inject_Z (Zpos (Qden a))).
  { destruct a as [n d]. apply Qmake_Qdiv. }
  assert (Hd : 0 < inject_Z (Zpos (Qden a))) by reflexivity.
  set (ln := Z.log2 (Qnum a)) in *. set (ld := Z.log2 (Zpos (Qden a))) in *.
  set (N := inject_Z (Qnum a)) in *. set (D := inject_Z (Zpos (Qden a))) in *.
  assert (EN : N == a * D) by (rewrite Ea; field; lra).
  pose proof (pow2_pos ld) as Hpd. pose proof (pow2_pos ln) as Hpn.
  pose proof (pow2_pos (ln - ld)) as Hpe.
  pose proof (pow2_succ ln) as Hsn. pose proof (pow2_succ ld) as Hsd.
  assert (Ee : 2 ^ (ln - ld) * 2 ^ ld == 2 ^ ln).
  { rewrite <- Qpower_plus by discriminate. replace (ln - ld + ld)%Z with ln by lia.
    reflexivity. }
  destruct (Qle_bool (2 ^ (ln - ld)) a) eqn:E.
  - apply Qle_bool_iff in E. split; [exact E|].
    rewrite pow2_succ. clearbody a N D ln ld. nra.
  - assert (E' : a < 2 ^ (ln - ld)).
    { apply Qnot_le_lt. intros H. apply Qle_bool_iff in H. congruence. }
    replace (ln - ld - 1 + 1)%Z with (ln - ld)%Z by lia.
    split; [|exact E'].
    assert (Eh : 2 * 2 ^ (ln - ld - 1) == 2 ^ (ln - ld)).
    { rewrite <- pow2_succ. replace (ln - ld - 1 + 1)%Z with (ln - ld)%Z by lia.
      reflexivity. }
    pose proof (pow2_pos (ln - ld - 1)).
    clearbody a N D ln ld. nra.
Qed.

(** One rounding changes a number that is not subnormal by at most one
    part in [2 ^ 53]. *)
Lemma fl_error (x : Q) :
  tiny <= Qabs x -> Qabs (fl x - x) * 2 ^ 53 <= Qabs x.
Proof.
  intros Hx.
  assert (Hx0 : ~ x == 0).
  { intros E. rewrite E in Hx. revert Hx. apply Qlt_not_le. reflexivity. }
  unfold fl.
  destruct (Qeq_bool x 0) eqn:E0; [apply Qeq_bool_iff in E0; contradiction|].
  destruct (exponent_spec x Hx0) as [Hlo Hhi].
  assert (He : (-1022 <= exponent x)%Z).
  { destruct (Z_le_gt_dec (-1022) (exponent x)) as [H|H]; [exact H|].
    exfalso. assert (2 ^ (exponent x + 1) <= tiny) by (apply pow2_le; lia).
    lra. }
  unfold ulp_exponent. rewrite Z.max_l by lia.
  set (k := (exponent x - 52)%Z).
  rewrite Qred_correct.
  pose proof (nearest_even_error (x / 2 ^ k)) as Hm.
  set (m := inject_Z (nearest_even (x / 2 ^ k))) in *.
  pose proof (pow2_pos k) as Hk.
  assert (Ek : 2 ^ k * 2 ^ 53 == 2 * 2 ^ exponent x).
  { rewrite <- Qpower_plus by discriminate. rewrite <- pow2_succ.
    unfold k. replace (exponent x - 52 + 53)%Z with (exponent x + 1)%Z by lia.
    reflexivity. }
  assert (Ed : m * 2 ^ k - x == (m - x / 2 ^ k) * 2 ^ k) by (field; lra).
  rewrite Ed, Qabs_Qmult, (Qabs_pos (2 ^ k)) by lra.
  pose proof (Qabs_nonneg (m - x / 2 ^ k)) as Hn.
  set (d := Qabs (m - x / 2 ^ k)) in *.
  set (P := 2 ^ 53) in *. set (K := 2 ^ k) in *. set (X := 2 ^ exponent x) in *.
  set (A := Qabs x) in *.
  assert (HP : 0 < P) by reflexivity.
  clearbody d P K X A.
  assert (d * K * P <= (1 # 2) * (K * P)).
  { rewrite <- Qmult_assoc. apply Qmult_le_compat_r; [exact Hm|]. nra. }
  nra.
Qed.

(** A positive number that is not subnormal, before and after one
    rounding. *)
Lemma fl_near (x : Q) :
  tiny <= x -> x * (1 - (1 # 2 ^ 53)) <= fl x <= x * (1 + (1 # 2 ^ 53)).
Proof.
  intros Hx.
  assert (Ht : 0 < tiny) by reflexivity.
  pose proof (fl_error x) as H. rewrite (Qabs_pos x) in H by lra.
  specialize (H Hx).
  assert (Hle : Qabs (fl x - x) <= x * (1 # 2 ^ 53)).
  { change (2 ^ 53) with (9007199254740992 # 1) in H.
    change (1 # 2 ^ 53) with (1 # 9007199254740992).
    set (d := Qabs (fl x - x)) in *. clearbody d. lra. }
  apply Qabs_Qle_condition in Hle. split; lra.
Qed.

(** Rounding to the nearest integer does not cross an integer. *)
Lemma nearest_even_le (y : Q) (c : Z) : y <= inject_Z c -> (nearest_even y <= c)%Z.
Proof.
  intros Hy. unfold nearest_even.
  pose proof (Qfloor_le y) as Hlo.
  assert (Hf : (Qfloor y <= c)%Z).
  { rewrite <- (Qfloor_Z c). by apply Qfloor_resp_le. }
  destruct (Qcompare_spec (y - inject_Z (Qfloor y)) (1 # 2)) as [E|E|E];
    [destruct (Z.even (Qfloor y))| |]; try lia.
  all: destruct (Z.eq_dec (Qfloor y) c) as [Ec|Ec]; [|lia].
  all: rewrite Ec in *; lra.
Qed.

Lemma nearest_even_ge (y : Q) (c : Z) : inject_Z c <= y -> (c <= nearest_even y)%Z.
Proof.
  intros Hy. unfold nearest_even.
  assert (Hf : (c <= Qfloor y)%Z).
  { rewrite <- (Qfloor_Z c). by apply Qfloor_resp_le. }
  destruct (Qcompare (y - inject_Z (Qfloor y)) (1 # 2));
    [destruct (Z.even (Qfloor y))| |]; lia.
Qed.

Lemma fl_unfold (x : Q) :
  ~ x == 0 ->
  fl x == inject_Z (nearest_even (x / 2 ^ ulp_exponent x)) * 2 ^ ulp_exponent x.
Proof.
  intros Hx. unfold fl.
  destruct (Qeq_bool x 0) eqn:E; [apply Qeq_bool_iff in E; contradiction|].
  apply Qred_correct.
Qed.

Lemma fl_nonneg (x : Q) : 0 <= x -> 0 <= fl x.
Proof.
  intros Hx. destruct (Qeq_dec x 0) as [E|E].
  - unfold fl. apply Qeq_bool_iff in E. rewrite E. lra.
  - rewrite (fl_unfold x E).
    pose proof (pow2_pos (ulp_exponent x)) as Hk.
    assert (Hy : inject_Z 0 <= x / 2 ^ ulp_exponent x).
    { apply Qle_shift_div_l; [exact Hk|]. change (inject_Z 0) with 0. lra. }
    apply nearest_even_ge in Hy. rewrite Zle_Qle in Hy. change (inject_Z 0) with 0 in Hy.
    apply Qmult_le_0_compat; lra.
Qed.

(** Rounding does not cross an integer of at most 53 bits. *)
Lemma fl_le_int (x : Q) (N : Z) :
  (- 2 ^ 53 <= N <= 2 ^ 53)%Z -> x <= inject_Z N -> fl x <= inject_Z N.
Proof.
  intros HN Hx. destruct (Qeq_dec x 0) as [E|E].
  - unfold fl. pose proof E as E'. apply Qeq_bool_iff in E'. rewrite E'. lra.
  - rewrite (fl_unfold x E).
    destruct (exponent_spec x E) as [Hlo Hhi].
    set (k := ulp_exponent x) in *.
    pose proof (pow2_pos k) as Hk.
    assert (Hgoal : forall c : Z, x / 2 ^ k <= inject_Z c -> inject_Z c * 2 ^ k <= inject_Z N ->
              inject_Z (nearest_even (x / 2 ^ k)) * 2 ^ k <= inject_Z N).
    { intros c H1 H2. apply nearest_even_le in H1. rewrite Zle_Qle in H1.
      set (n := inject_Z (nearest_even (x / 2 ^ k))) in *. set (C := inject_Z c) in *.
      set (K := 2 ^ k) in *. clearbody n C K. nra. }
    destruct (Z_le_gt_dec k 0) as [Hk0|Hk0].
    + apply (Hgoal (N * 2 ^ (- k))%Z).
      * rewrite inject_Z_mult, Zpower_Qpower by lia. change (inject_Z 2) with 2.
        rewrite Qpower_opp. unfold Qdiv. apply Qmult_le_compat_r; [exact Hx|].
        apply Qlt_le_weak, Qinv_lt_0_compat, Hk.
      * rewrite inject_Z_mult, Zpower_Qpower by lia. change (inject_Z 2) with 2.
        rewrite Qpower_opp. set (K := 2 ^ k) in *. clearbody K.
        assert (Ei : inject_Z N * / K * K == inject_Z N) by (field; lra).
        rewrite Ei. lra.
    + assert (Ek : k = (exponent x - 52)%Z).
      { pose proof Hk0 as H'. unfold k, ulp_exponent in H' |- *. lia. }
      assert (E2 : 2 ^ exponent x == 2 ^ 52 * 2 ^ k).
      { rewrite <- Qpower_plus by discriminate. f_equiv. lia. }
      assert (Hk2 : 2 <= 2 ^ k).
      { change 2 with (2 ^ 1) at 1. apply pow2_le. lia. }
      assert (HN1 : inject_Z N <= 2 ^ 53).
      { change (2 ^ 53) with (inject_Z (2 ^ 53)). rewrite <- Zle_Qle. lia. }
      assert (HN2 : - 2 ^ 53 <= inject_Z N).
      { change (- 2 ^ 53) with (inject_Z (- 2 ^ 53)). rewrite <- Zle_Qle. lia. }
      change (2 ^ 53) with (9007199254740992 # 1) in HN1, HN2.
      change (2 ^ 52) with (4503599627370496 # 1) in E2.
      destruct (Qlt_le_dec 0 x) as [Hpos|Hneg].
      * rewrite (Qabs_pos x) in Hlo by lra.
        apply (Hgoal (2 ^ 52)%Z).
        -- apply Qle_shift_div_r; [exact Hk|].
           change (inject_Z (2 ^ 52)) with (4503599627370496 # 1).
           set (K := 2 ^ k) in *. set (X := 2 ^ exponent x) in *. clearbody K X. nra.
        -- change (inject_Z (2 ^ 52)) with (4503599627370496 # 1).
           set (K := 2 ^ k) in *. set (X := 2 ^ exponent x) in *. clearbody K X. nra.
      * rewrite (Qabs_neg x) in Hlo by lra.
        apply (Hgoal (- 2 ^ 52)%Z).
        -- apply Qle_shift_div_r; [exact Hk|].
           change (inject_Z (- 2 ^ 52)) with (-4503599627370496 # 1).
           set (K := 2 ^ k) in *. set (X := 2 ^ exponent x) in *. clearbody K X. nra.
        -- change (inject_Z (- 2 ^ 52)) with (-4503599627370496 # 1).
           set (K := 2 ^ k) in *. set (X := 2 ^ exponent x) in *. clearbody K X. nra.
Qed.

(** Two ordinary numbers, their quotient and their product are no
    smaller than twice the smallest normal number. *)
Lemma ordinary_quotient (a r : Q) :
  ordinary a -> ordinary r ->
  0 < a /\ 0 < r /\ tiny * 2 <= a / r /\ tiny * 2 <= a * r /\ tiny * 2 <= a.
Proof.
  unfold ordinary. intros [Ha1 Ha2] [Hr1 Hr2].
  assert (Hlo : 0 < 2 ^ (-500)) by reflexivity.
  assert (Hhi : 0 < 2 ^ 500) by reflexivity.
  assert (Ht : tiny * 2 * 2 ^ 500 <= 2 ^ (-500)) by (vm_compute; discriminate).
  assert (Ht2 : tiny * 2 <= 2 ^ (-500) * 2 ^ (-500)) by (vm_compute; discriminate).
  assert (Ht3 : tiny * 2 <= 2 ^ (-500)) by (vm_compute; discriminate).
  assert (Ht0 : 0 < tiny) by reflexivity.
  set (lo := 2 ^ (-500)) in *. set (hi := 2 ^ 500) in *. set (t := tiny) in *.
  clearbody lo hi t.
  split; [lra|]. split; [lra|]. split; [|split].
  - apply Qle_shift_div_l; [lra|]. nra.
  - nra.
  - lra.
Qed.

(** Dividing by [r] and multiplying by [r] again, with a rounding after
    each, and the other way round. *)
Lemma div_then_mul (a r : Q) :
  ordinary a -> ordinary r ->
  0 < fdiv a r /\ Qabs (fmul (fdiv a r) r - a) * 2 ^ 51 <= a.
Proof.
  intros Ha Hr. destruct (ordinary_quotient a r Ha Hr) as (Ha0 & Hr0 & Hq & _ & Hat).
  assert (Ht0 : 0 < tiny) by reflexivity.
  unfold fmul, fdiv.
  destruct (fl_near (a / r)) as [Hq1 Hq2]; [lra|].
  set (y := a / r) in *. set (q := fl y) in *.
  assert (Ey : y * r == a) by (unfold y; field; lra).
  change (1 # 2 ^ 53) with (1 # 9007199254740992) in *.
  assert (Hz : tiny <= q * r).
  { clearbody q y. nra. }
  destruct (fl_near (q * r)) as [Hp1 Hp2]; [exact Hz|].
  change (1 # 2 ^ 53) with (1 # 9007199254740992) in *.
  set (p := fl (q * r)) in *. clearbody p q y.
  split; [nra|].
  change (2 ^ 51) with (2251799813685248 # 1).
  assert (Hd : Qabs (p - a) <= a * (1 # 2251799813685248)).
  { apply Qabs_Qle_condition. split; nra. }
  set (d := Qabs (p - a)) in *. clearbody d. lra.
Qed.

Lemma mul_then_div (a r : Q) :
  ordinary a -> ordinary r ->
  0 < fmul a r /\ Qabs (fdiv (fmul a r) r - a) * 2 ^ 51 <= a.
Proof.
  intros Ha Hr. destruct (ordinary_quotient a r Ha Hr) as (Ha0 & Hr0 & _ & Hq & Hat).
  assert (Ht0 : 0 < tiny) by reflexivity.
  unfold fmul, fdiv.
  destruct (fl_near (a * r)) as [Hq1 Hq2]; [lra|].
  set (q := fl (a * r)) in *.
  change (1 # 2 ^ 53) with (1 # 9007199254740992) in *.
  assert (Ey : q / r * r == q) by (field; lra).
  assert (Hz : tiny <= q / r).
  { apply Qle_shift_div_l; [exact Hr0|]. clearbody q. nra. }
  destruct (fl_near (q / r)) as [Hp1 Hp2]; [exact Hz|].
  change (1 # 2 ^ 53) with (1 # 9007199254740992) in *.
  set (z := q / r) in *. set (p := fl z) in *. clearbody p z q.
  split; [nra|].
  change (2 ^ 51) with (2251799813685248 # 1).
  assert (Hd : Qabs (p - a) <= a * (1 # 2251799813685248)).
  { apply Qabs_Qle_condition. split; nra. }
  set (d := Qabs (p - a)) in *. clearbody d. lra.
Qed.

(** The rounded product and quotient of two ordinary numbers. *)
Lemma product_near (a r : Q) :
  ordinary a -> ordinary r ->
  a * r * (1 - (1 # 2 ^ 53)) <= fmul a r <= a * r * (1 + (1 # 2 ^ 53)).
Proof.
  intros Ha Hr. destruct (ordinary_quotient a r Ha Hr) as (_ & _ & _ & Hq & _).
  assert (Ht0 : 0 < tiny) by reflexivity.
  apply fl_near. lra.
Qed.

Lemma quotient_near (a r : Q) :
  ordinary a -> ordinary r ->
  a / r * (1 - (1 # 2 ^ 53)) <= fdiv a r <= a / r * (1 + (1 # 2 ^ 53)).
Proof.
  intros Ha Hr. destruct (ordinary_quotient a r Ha Hr) as (_ & _ & Hq & _ & _).
  assert (Ht0 : 0 < tiny) by reflexivity.
  apply fl_near. lra.
Qed.

(** The four rounded operations give what the IEEE 754 operations of
    the standard library give at binary64: on small integers scaled by
    powers of two, on the numbers of the examples below, on significands
    of 53 bits and more, and on subnormal numbers. *)
Lemma fl_agrees_with_SpecFloat :
  Binary64Check.agree_on (Binary64Check.from_to (-9) 9) [-3; 0; 50]%Z
                         (Binary64Check.from_to 1 9) [-1; 0; 1; 52; 53]%Z = true /\
  Binary64Check.agree_on [931; 698; 307; 450; 1060; 700; 400; 200; 1862; 1396]%Z [0]%Z
                         [931; 698; 307; 450; 1060; 700; 400; 200; 1862; 1396;
                          6006950219315089]%Z [0; -52]%Z = true /\
  Binary64Check.agree_on [9007199254740991; 9007199254740993; 6004799503160661;
                          4503599627370496; 4503599627370497]%Z [-52; 0; 3]%Z
                         [3; 9007199254740991; 6004799503160661;
                          4503599627370497]%Z [-60; -52; 0; 10]%Z = true /\
  Binary64Check.agree_on [1; 3; 9007199254740991]%Z [-1074; -1022]%Z
                         [2; 3; 9007199254740991]%Z [-54; -1; 1]%Z = true.
Proof. vm_compute. done. Qed.

End Binary64Facts.


(** ** The preview recomputation in binary64 *)
Module RenderFacts.

Import Binary64 Binary64Facts Render.
Local Open Scope Q_scope.

Lemma same_within (a : Q) : 0 <= a -> Qabs (a - a) * 2 ^ 51 <= a.
Proof.
  intros Ha. assert (E : a - a == 0) by ring. rewrite E. exact Ha.
Qed.

Ltac bool_cases :=
  repeat match goal with
  | |- context [Qle_bool ?a ?b] =>
      let E := fresh "E" in
      destruct (Qle_bool a b) eqn:E
  end.





End RenderFacts.

(** ** The crop modal *)
Module CropModalFacts.

Import Preview CropModal.
Local Open Scope Q_scope.

(** C6.  Two drags the resize branch of handleMouseMove does not keep
    in shape, on a 400 x 200 image.
    With the ratio 1:1 the box starts as the centred square; dragging the
    top handle 100 pixels up gives the box [(100, 0, 300, 200)]: inside the
    image, but three to two instead of one to one, because the clamp at the
    top edge cuts the height and leaves the width; applyCrop stores it as a
    3000 x 2000 window.
    With the ratio of the image the box starts as the whole image;
    dragging the left handle 380 pixels to the right gives a box of 20 x 10,
    under the floor of 50; 400 pixels give a box of 0 x 0; 450 pixels give a
    box that starts right of the image and has a negative width. *)
Theorem resize_breaks_ratio_and_floor :
  (Demo.box_left Demo.dragged_up == 100 /\
   Demo.box_top Demo.dragged_up == 0 /\
   Demo.box_width Demo.dragged_up == 300 /\
   Demo.box_height Demo.dragged_up == 200 /\
   modalRatio (Ratio 1 1) (originalAspectRatio Demo.dragged_up) == 1 /\
   ~ Demo.box_width Demo.dragged_up
     == Demo.box_height Demo.dragged_up
        * modalRatio (Ratio 1 1) (originalAspectRatio Demo.dragged_up)) /\
  (let st := applyCrop Demo.lay 4000 2000 (Some 0%nat) Demo.dragged_up Demo.one_image in
   exists c, cropData st !! 0%nat = Some c /\
             boxWidth c == 3000 /\ boxHeight c == 2000 /\
             centerX c == 2500 /\ centerY c == 1000) /\
  (Demo.box_width (Demo.dragged_right 380) == 20 /\
   Demo.box_height (Demo.dragged_right 380) == 10 /\
   Demo.box_width (Demo.dragged_right 380) < minSize) /\
  (Demo.box_width (Demo.dragged_right 400) == 0 /\
   Demo.box_height (Demo.dragged_right 400) == 0) /\
  (Demo.box_left (Demo.dragged_right 450) == 450 /\
   Demo.box_width (Demo.dragged_right 450) == -50 /\
   imageLeft Demo.lay + imageWidth (Demo.dragged_right 450)
     < Demo.box_left (Demo.dragged_right 450)).
Proof.
  split; [|split; [|split; [|split]]].
  - vm_compute. repeat split; discriminate.
  - eexists. split; [reflexivity|]. vm_compute. repeat split; discriminate.
  - vm_compute. repeat split; discriminate.
  - vm_compute. repeat split; discriminate.
  - vm_compute. repeat split; discriminate.
Qed.

(** The moving branch keeps a box that fits the image inside it. *)
Lemma move_box_inside (lay : Layout) (deltaX deltaY : Q) (cs : CropState) (b : Box) :
  width b <= imageWidth cs -> height b <= imageHeight cs ->
  inside_image lay cs (move_box lay deltaX deltaY cs b).
Proof.
  intros Hw Hh. unfold inside_image, move_box. simpl.
  PreviewFacts.split_minmax; repeat split; lra.
Qed.

End CropModalFacts.

(** ** Submission *)
Module SubmitFacts.

Import Submit.

(** None of the four properties applyCropToFile reads exists on a stored
    entry. *)
Lemma crop_draw_undefined (c : CropEntry) :
  crop_draw c = DrawRegion JUndefined JUndefined JUndefined JUndefined.
Proof. reflexivity. Qed.

(** An item without a committed crop is sent as it is. *)
Lemma media_part_uncropped toBlob (st : State) (index : nat) (file : File) :
  has_crop (cropData st) index = None ->
  media_part toBlob st index file = file.
Proof. intros H. unfold media_part. by rewrite H. Qed.

(** C2.  For an item with a committed crop, handleCreatePost does not
    send the region of the stored window: applyCropToFile reads [x], [y],
    [width] and [height], which no stored entry has, so the canvas is
    0 x 0 and drawImage is given four undefined coordinates, whatever the
    window.  On [A(crop), B, C(crop)], with a canvas that yields no blob,
    what is sent for [A] and [C] is a part made from [null]; [B] is sent
    as it is. *)
Theorem applyCropToFile_ignores_window :
  (forall c, crop_draw c = DrawRegion JUndefined JUndefined JUndefined JUndefined) /\
  (forall c, crop_draw c <> window_draw c) /\
  (forall c, canvas_dim_of (get_prop c "width") = 0%Z /\
             canvas_dim_of (get_prop c "height") = 0%Z) /\
  (forall toBlob st index file c,
     has_crop (cropData st) index = Some c ->
     media_part toBlob st index file
     = file_of_blob
         (match toBlob (payload file) 0%Z 0%Z
                  (DrawRegion JUndefined JUndefined JUndefined JUndefined)
                  "image/jpeg" 0.95%Q with
          | Some sz =>
              Some (sz, Encoded (payload file) 0 0
                          (DrawRegion JUndefined JUndefined JUndefined JUndefined)
                          "image/jpeg" 0.95%Q)
          | None => None
          end) file) /\
  handleCreatePost_media Demo.no_blob Demo.a_b_c
  = [mkFile "a.jpg" "image/jpeg" 4 NullPart;
     Demo.imgB;
     mkFile "c.jpg" "image/jpeg" 4 NullPart].
Proof.
  split; [intros c; reflexivity|].
  split; [intros c; discriminate|].
  split; [intros c; split; reflexivity|].
  split; [|reflexivity].
  intros toBlob st index file c Hc. unfold media_part. rewrite Hc. reflexivity.
Qed.

End SubmitFacts.

(** * Further properties of the same handlers *)

(** ** Reordering, once more *)
Module ReorderMore.

Import Reorder ReorderFacts Compose.

Lemma swap_at_inj i j : Inj (=) (=) (swap_at i j).
Proof. intros a b. unfold swap_at. cases. Qed.

Lemma swap_items_perm i j (l : list File) :
  i < length l -> j < length l -> swap_items i j l ≡ₚ l.
Proof.
  intros Hi Hj. symmetry. apply Permutation_inj. split.
  - by rewrite swap_items_length.
  - exists (swap_at i j). split; [apply swap_at_inj|].
    intros k. by rewrite swap_items_lookup.
Qed.

(** X1.  Each of the four move handlers, called on a position of the
    list, returns the same files in another order: none is lost, none is
    there twice. *)
Theorem moves_permute_files (op : Op) (i : nat) (st : State) :
  i < length (selectedFiles st) ->
  selectedFiles (run op i st) ≡ₚ selectedFiles st.
Proof.
  intros Hi.
  destruct (lookup_lt_is_Some_2 _ _ Hi) as [item Hitem].
  destruct op; simpl; unfold moveMediaUp, moveMediaDown, moveMediaToFirst,
    moveMediaToLast; case_decide; simpl; try done.
  - apply swap_items_perm; lia.
  - apply swap_items_perm; lia.
  - rewrite Hitem. simpl. symmetry. by apply delete_Permutation.
  - rewrite Hitem. simpl. rewrite <- Permutation_cons_append.
    symmetry. by apply delete_Permutation.
Qed.

Lemma moves_permute_files_witness :
  1 < length (selectedFiles Demo.a_b_c) /\
  selectedFiles (moveMediaToLast 1 Demo.a_b_c) ≡ₚ selectedFiles Demo.a_b_c.
Proof.
  assert (H : 1 < length (selectedFiles Demo.a_b_c)) by (simpl; lia).
  split; [exact H|].
  exact (moves_permute_files ToLast 1 Demo.a_b_c H).
Defined.

Lemma swap_at_comm i j k : swap_at i j k = swap_at j i k.
Proof. unfold swap_at. cases. Qed.

Lemma swap_at_invol i j k : swap_at i j (swap_at i j k) = k.
Proof. unfold swap_at. cases. Qed.

Lemma swap_items_twice i j (l : list File) :
  i < length l -> j < length l ->
  swap_items j i (swap_items i j l) = l.
Proof.
  intros Hi Hj. apply list_eq. intros k.
  pose proof (swap_items_lookup j i (swap_items i j l) (swap_at i j k)) as H.
  rewrite (swap_at_comm j i), swap_at_invol in H.
  rewrite H by (by rewrite swap_items_length).
  by apply swap_items_lookup.
Qed.

Lemma swap_crops_twice i j (cd : gmap nat CropEntry) :
  swap_crops j i (swap_crops i j cd) = cd.
Proof.
  apply map_eq. intros k.
  pose proof (swap_crops_lookup j i (swap_crops i j cd) (swap_at i j k)) as H.
  rewrite (swap_at_comm j i), swap_at_invol in H.
  rewrite H. apply swap_crops_lookup.
Qed.

Lemma state_eq (a b : State) :
  selectedFiles a = selectedFiles b -> cropData a = cropData b ->
  currentCarouselIndex a = currentCarouselIndex b -> a = b.
Proof. destruct a, b. simpl. by intros -> -> ->. Qed.

(** X2.  Moving an item one place up and then one place down again, or
    down and then up again, gives back the state exactly: the files, every
    crop entry and the cursor. *)
Theorem up_then_down (i : nat) (st : State) :
  0 < i -> i < length (selectedFiles st) ->
  moveMediaDown (i - 1) (moveMediaUp i st) = st /\
  moveMediaUp i (moveMediaDown (i - 1) st) = st.
Proof.
  intros H0 Hi. split.
  - unfold moveMediaUp. case_decide; [|lia].
    unfold moveMediaDown. simpl. rewrite swap_items_length.
    case_decide; [|lia].
    replace (i - 1 + 1) with i by lia.
    apply state_eq; simpl.
    + apply swap_items_twice; lia.
    + apply swap_crops_twice.
    + cases.
  - unfold moveMediaDown. case_decide; [|lia].
    unfold moveMediaUp. case_decide; [|lia]. simpl.
    replace (i - 1 + 1) with i by lia.
    apply state_eq; simpl.
    + apply swap_items_twice; lia.
    + apply swap_crops_twice.
    + cases.
Qed.

Lemma up_then_down_witness :
  0 < 2 /\ 2 < length (selectedFiles Demo.a_b_c) /\
  moveMediaDown (2 - 1) (moveMediaUp 2 Demo.a_b_c) = Demo.a_b_c.
Proof.
  assert (H0 : 0 < 2) by lia.
  assert (H : 2 < length (selectedFiles Demo.a_b_c)) by (simpl; lia).
  split; [exact H0|]. split; [exact H|].
  exact (proj1 (up_then_down 2 Demo.a_b_c H0 H)).
Defined.

Lemma to_first_from_first i q : to_first i (from_first i q) = q.
Proof. unfold to_first, from_first. cases. Qed.

Lemma to_first_crops_all index (cd : gmap nat CropEntry) q :
  put_item_crop 0 (cd !! index)
    (rebuild (fun idx => if decide (idx < index) then idx + 1 else idx)
             (delete index cd)) !! q = cd !! from_first index q.
Proof.
  rewrite <- (to_first_from_first index q) at 1.
  destruct (cd !! from_first index q) as [c|] eqn:E.
  - by apply to_first_crops.
  - by apply to_first_crops_None.
Qed.

Lemma delete_after_swap (l : list File) k a b :
  l !! k = Some b -> l !! S k = Some a ->
  delete k (<[k:=a]> (<[S k:=b]> l)) = delete (S k) l.
Proof.
  revert l. induction k as [|k IH]; intros [|x [|y l]] Hb Ha; simplify_eq/=; try done.
  f_equal. by apply (IH (y :: l)).
Qed.

Lemma to_first_step (k : nat) (st : State) :
  S k < length (selectedFiles st) ->
  moveMediaToFirst k (moveMediaUp (S k) st) = moveMediaToFirst (S k) st.
Proof.
  intros Hk.
  destruct (lookup_lt_is_Some_2 (selectedFiles st) (S k) Hk) as [a Ha].
  destruct (lookup_lt_is_Some_2 (selectedFiles st) k ltac:(lia)) as [b Hb].
  assert (Hup : moveMediaUp (S k) st
                = mkState (<[k:=a]> (<[S k:=b]> (selectedFiles st)))
                          (swap_crops (S k) k (cropData st))
                          (if decide (currentCarouselIndex st = S k) then k
                           else if decide (currentCarouselIndex st = k) then S k
                           else currentCarouselIndex st)).
  { unfold moveMediaUp. rewrite decide_True by lia.
    replace (S k - 1) with k by lia.
    unfold swap_items. by rewrite Ha, Hb. }
  assert (Hfirst : moveMediaToFirst (S k) st
                   = mkState (a :: delete (S k) (selectedFiles st))
                       (put_item_crop 0 (cropData st !! S k)
                          (rebuild (fun idx => if decide (idx < S k) then idx + 1 else idx)
                                   (delete (S k) (cropData st))))
                       (if decide (currentCarouselIndex st = S k) then 0
                        else if decide (currentCarouselIndex st < S k)
                             then currentCarouselIndex st + 1
                             else currentCarouselIndex st)).
  { unfold moveMediaToFirst. rewrite decide_True by lia. by rewrite Ha. }
  rewrite Hup, Hfirst.
  assert (Hcrops : forall q,
            swap_crops (S k) k (cropData st) !! from_first k q
            = cropData st !! from_first (S k) q).
  { intros q.
    pose proof (swap_crops_lookup (S k) k (cropData st) (from_first (S k) q)) as Hsw.
    rewrite <- Hsw. f_equal. unfold swap_at, from_first. cases. }
  destruct (decide (k = 0)) as [->|Hk0].
  - unfold moveMediaToFirst. rewrite decide_False by lia.
    apply state_eq; simpl.
    + destruct (selectedFiles st) as [|x [|y l]]; by simplify_eq/=.
    + apply map_eq. intros q. rewrite to_first_crops_all, <- Hcrops.
      f_equal. unfold from_first. cases.
    + cases.
  - unfold moveMediaToFirst. rewrite decide_True by lia. simpl.
    assert (Hlk : <[k:=a]> (<[S k:=b]> (selectedFiles st)) !! k = Some a).
    { apply list_lookup_insert_eq. rewrite length_insert. lia. }
    rewrite Hlk.
    apply state_eq; simpl.
    + f_equal. by apply delete_after_swap.
    + apply map_eq. intros q. rewrite !to_first_crops_all. apply Hcrops.
    + cases.
Qed.

(** X3.  moveMediaToFirst on a position of the list does what pressing
    the left arrow on the item does when it is repeated until the item is
    first: the same files, the same crop entries, the same cursor. *)
Theorem to_first_is_repeated_up (i : nat) (st : State) :
  i < length (selectedFiles st) ->
  move_up_to_front i st = moveMediaToFirst i st.
Proof.
  revert st. induction i as [|k IH]; intros st Hi.
  - unfold moveMediaToFirst. by case_decide; [lia|].
  - simpl. rewrite IH.
    + by apply to_first_step.
    + unfold moveMediaUp. case_decide; [|lia]. simpl.
      rewrite swap_items_length. lia.
Qed.

Lemma to_first_is_repeated_up_witness :
  2 < length (selectedFiles Demo.a_b_c) /\
  moveMediaUp 1 (moveMediaUp 2 Demo.a_b_c) = moveMediaToFirst 2 Demo.a_b_c.
Proof.
  assert (H : 2 < length (selectedFiles Demo.a_b_c)) by (simpl; lia).
  split; [exact H|].
  exact (to_first_is_repeated_up 2 Demo.a_b_c H).
Defined.

End ReorderMore.

(** ** Sessions *)
Module SessionFacts.

Import Reorder ReorderFacts Carousel Session.

Lemma preview_safe_iff (st : State) :
  preview_safe st <->
  selectedFiles st = [] \/ currentCarouselIndex st < length (selectedFiles st).
Proof.
  unfold preview_safe, Preview.updatePreview_shown.
  destruct (selectedFiles st) as [|f l] eqn:E.
  - split; [by left|done].
  - rewrite <- E.
    destruct (selectedFiles st !! currentCarouselIndex st) as [g|] eqn:Hg.
    + split; [|done]. intros _. right. by apply lookup_lt_Some in Hg.
    + split; [done|]. intros [H|H]; [congruence|].
      apply lookup_ge_None in Hg. lia.
Qed.

Lemma navigate_in_range (direction : Z) (st : State) :
  1 < length (selectedFiles st) ->
  currentCarouselIndex (navigateCarousel direction st) < length (selectedFiles st).
Proof.
  intros Hn. unfold navigateCarousel. case_decide; [lia|]. simpl.
  repeat case_decide; lia.
Qed.

Lemma navigate_frame (direction : Z) (st : State) :
  selectedFiles (navigateCarousel direction st) = selectedFiles st /\
  cropData (navigateCarousel direction st) = cropData st.
Proof. unfold navigateCarousel. by case_decide. Qed.

Lemma applyCrop_frame lay aw ah i cs st :
  selectedFiles (CropModal.applyCrop lay aw ah i cs st) = selectedFiles st /\
  currentCarouselIndex (CropModal.applyCrop lay aw ah i cs st)
  = currentCarouselIndex st.
Proof. unfold CropModal.applyCrop. by repeat case_match. Qed.

Lemma edit_preview_safe st st' : edit st st' -> preview_safe st -> preview_safe st'.
Proof.
  intros Hedit Hsafe. apply preview_safe_iff. apply preview_safe_iff in Hsafe.
  destruct Hedit as [op i s Hi|d s|idx s Hidx|lay aw ah i cs s Hi|s].
  - right. rewrite run_length, run_cursor by done.
    apply new_index_range; [done|].
    destruct Hsafe as [E|H]; [|done]. rewrite E in Hi. simpl in Hi. lia.
  - destruct (decide (length (selectedFiles s) <= 1)) as [Hle|Hgt].
    + unfold navigateCarousel. by case_decide.
    + right. rewrite (proj1 (navigate_frame d s)).
      apply navigate_in_range. lia.
  - by right.
  - destruct (applyCrop_frame lay aw ah (Some i) cs s) as [-> ->]. done.
  - by left.
Qed.

Lemma remove_preview_safe i st : preview_safe (removeMedia i st).
Proof.
  apply preview_safe_iff. unfold removeMedia. simpl.
  destruct (delete i (selectedFiles st)); [by left|right; simpl; lia].
Qed.

(** X4.  Moving, removing, turning the carousel, clicking an indicator,
    committing a crop and resetting the form never leave the carousel
    without a file to load: from a state where updatePreview has a file at
    the cursor (or nothing selected), every state reached by these
    handlers is such a state. *)
Theorem session_keeps_preview_safe (st st' : State) :
  preview_safe st -> rtc step st st' -> preview_safe st'.
Proof.
  intros Hsafe Hsteps. induction Hsteps as [|x y z Hstep _ IH]; [done|].
  apply IH. destruct Hstep as [s s' Hedit|i s].
  - by apply (edit_preview_safe s s').
  - apply remove_preview_safe.
Qed.

Lemma session_keeps_preview_safe_witness :
  preview_safe Demo.a_b_c /\
  rtc step Demo.a_b_c (removeMedia 0 (moveMediaToFirst 2 Demo.a_b_c)) /\
  preview_safe (removeMedia 0 (moveMediaToFirst 2 Demo.a_b_c)).
Proof.
  assert (Hsafe : preview_safe Demo.a_b_c) by (intros H; discriminate H).
  assert (Hrun : rtc step Demo.a_b_c (removeMedia 0 (moveMediaToFirst 2 Demo.a_b_c))).
  { eapply rtc_l.
    - apply step_edit. apply (edit_move ToFirst 2). simpl. lia.
    - eapply rtc_l; [apply (step_remove 0)|apply rtc_refl]. }
  split; [exact Hsafe|]. split; [exact Hrun|].
  exact (session_keeps_preview_safe _ _ Hsafe Hrun).
Defined.

Lemma to_last_past_end n index (cd : gmap nat CropEntry) j :
  index < n - 1 -> n <= j ->
  (forall k, n <= k -> cd !! k = None) ->
  put_item_crop (n - 1) (cd !! index)
    (rebuild (fun idx => if decide (index < idx) then idx - 1 else idx)
             (delete index cd)) !! j = None.
Proof.
  intros Hi Hj Hstale.
  assert (Hrest : rebuild (fun idx => if decide (index < idx) then idx - 1 else idx)
                    (delete index cd) !! j = None).
  { apply rebuild_None; [apply to_last_keys_distinct|].
    intros k Hk. destruct (decide (k = index)) as [->|].
    - apply lookup_delete_eq.
    - rewrite lookup_delete_ne by done. apply Hstale. cases. }
  destruct (cd !! index); simpl; [|done].
  rewrite lookup_insert_ne; [done|lia].
Qed.

Lemma move_crops_in_range op i st :
  i < length (selectedFiles st) -> crops_in_range st ->
  crops_in_range (run op i st).
Proof.
  intros Hi Hin j. rewrite run_length by done. intros Hj.
  destruct (lookup_lt_is_Some_2 _ _ Hi) as [item Hitem].
  destruct op; simpl; unfold moveMediaUp, moveMediaDown, moveMediaToFirst,
    moveMediaToLast; case_decide; simpl; try (by apply Hin).
  - pose proof (swap_crops_lookup i (i - 1) (cropData st) j) as H1.
    unfold swap_at in H1 at 1. repeat case_decide; try lia.
    rewrite H1. by apply Hin.
  - pose proof (swap_crops_lookup i (i + 1) (cropData st) j) as H1.
    unfold swap_at in H1 at 1. repeat case_decide; try lia.
    rewrite H1. by apply Hin.
  - rewrite Hitem. simpl.
    pose proof (to_first_crops_None i (cropData st) j (Hin j Hj)) as H1.
    unfold to_first in H1. repeat case_decide; try lia. done.
  - rewrite Hitem. simpl.
    rewrite length_app, length_delete by eauto. simpl.
    replace (length (selectedFiles st) - 1 + 1 - 1)
      with (length (selectedFiles st) - 1) by lia.
    by apply to_last_past_end.
Qed.

(** X5.  The handlers that keep the number of files (the four moves on
    a position of the list, the carousel, a crop committed for a position
    of the list) and the reset never store a crop entry past the end of the
    list when there was none. *)
Theorem edits_keep_crops_in_range (st st' : State) :
  crops_in_range st -> rtc edit st st' -> crops_in_range st'.
Proof.
  intros Hin Hsteps. induction Hsteps as [|x y z Hedit _ IH]; [done|].
  apply IH. clear IH.
  destruct Hedit as [op i s Hi|d s|idx s Hidx|lay aw ah i cs s Hi|s].
  - by apply move_crops_in_range.
  - intros j. destruct (navigate_frame d s) as [-> ->]. apply Hin.
  - done.
  - intros j. destruct (applyCrop_frame lay aw ah (Some i) cs s) as [-> _].
    intros Hj. unfold CropModal.applyCrop.
    destruct (CropModal.cropBox cs); simpl; [|by apply Hin].
    rewrite lookup_insert_ne by lia. by apply Hin.
  - intros j _. apply lookup_empty.
Qed.

Lemma edits_keep_crops_in_range_witness :
  crops_in_range Demo.a_b_c /\
  rtc edit Demo.a_b_c (moveMediaToLast 0 Demo.a_b_c) /\
  crops_in_range (moveMediaToLast 0 Demo.a_b_c).
Proof.
  assert (Hin : crops_in_range Demo.a_b_c).
  { intros j Hj. simpl in Hj.
    unfold Demo.a_b_c. simpl.
    rewrite !lookup_insert_ne by lia. apply lookup_empty. }
  assert (Hrun : rtc edit Demo.a_b_c (moveMediaToLast 0 Demo.a_b_c)).
  { eapply rtc_l; [|apply rtc_refl]. apply (edit_move ToLast 0). simpl. lia. }
  split; [exact Hin|]. split; [exact Hrun|].
  exact (edits_keep_crops_in_range _ _ Hin Hrun).
Defined.

(** X6.  The first selection after resetPostForm starts clean, whatever
    was there before the reset: the cursor is 0, no index has a crop entry,
    and for a batch of 1 to 20 files the carousel shows a file without a
    crop. *)
Theorem selection_after_reset_is_clean
    (decode : File -> option (Z * Z))
    (toBlob : Payload -> Z -> Z -> DrawCall -> string -> Q -> option Z)
    (files : list File) (st : State) :
  let st' := fst (Ingest.handleMediaSelect decode toBlob files (resetPostForm st)) in
  preview_safe st' /\ crops_in_range st' /\
  currentCarouselIndex st' = 0 /\
  (forall i, has_crop (cropData st') i = None) /\
  (0 < length files <= 20 ->
   exists f, Preview.updatePreview_shown st' = Preview.Shows f None).
Proof.
  intros st'.
  destruct (decide (length files <= 20)) as [Hle|Hgt].
  - assert (E : st' = mkState (fst (Ingest.process_all decode toBlob files)) ∅ 0).
    { subst st'. by rewrite IngestFacts.handleMediaSelect_accepts. }
    clearbody st'. subst st'.
    assert (Hlen : length (fst (Ingest.process_all decode toBlob files)) = length files).
    { rewrite IngestFacts.process_all_fst. apply length_map. }
    set (l := fst (Ingest.process_all decode toBlob files)) in *. clearbody l.
    split.
    { apply preview_safe_iff. simpl. destruct l; [by left|right; simpl; lia]. }
    split; [intros j _; apply lookup_empty|].
    split; [done|].
    split; [intros i; unfold has_crop; simpl; by rewrite lookup_empty|].
    intros [Hpos _]. unfold Preview.updatePreview_shown. simpl.
    destruct l as [|f rest]; [simpl in Hlen; lia|].
    exists f. simpl. unfold has_crop. by rewrite lookup_empty.
  - assert (E : st' = resetPostForm st).
    { subst st'. rewrite IngestFacts.handleMediaSelect_rejects by lia. done. }
    rewrite E. unfold resetPostForm.
    split; [by apply preview_safe_iff; left|].
    split; [intros j _; apply lookup_empty|].
    split; [done|].
    split; [intros i; unfold has_crop; simpl; by rewrite lookup_empty|].
    intros [_ ?]. lia.
Qed.

Lemma selection_after_reset_is_clean_witness :
  0 < length [Demo.imgB] <= 20 /\
  exists f,
    Preview.updatePreview_shown
      (fst (Ingest.handleMediaSelect Demo.no_decode Demo.no_blob [Demo.imgB]
              (resetPostForm Demo.a_b_c)))
    = Preview.Shows f None.
Proof.
  assert (H : 0 < length [Demo.imgB] <= 20) by (simpl; lia).
  split; [exact H|].
  destruct (selection_after_reset_is_clean Demo.no_decode Demo.no_blob
              [Demo.imgB] Demo.a_b_c) as (_ & _ & _ & _ & Hshow).
  exact (Hshow H).
Defined.

End SessionFacts.

(** ** The carousel *)
Module CarouselFacts.

Import Carousel.

Lemma navigate_cursor (direction : Z) (st : State) :
  1 < length (selectedFiles st) ->
  let n := Z.of_nat (length (selectedFiles st)) in
  let moved := (Z.of_nat (currentCarouselIndex st) + direction)%Z in
  Z.of_nat (currentCarouselIndex (navigateCarousel direction st))
  = (if decide (moved < 0)%Z then n - 1
     else if decide (n <= moved)%Z then 0 else moved)%Z.
Proof.
  intros Hn n moved. unfold navigateCarousel. case_decide; [lia|]. simpl.
  fold n moved. repeat case_decide; lia.
Qed.

Lemma navigate_files (direction : Z) (st : State) :
  selectedFiles (navigateCarousel direction st) = selectedFiles st /\
  cropData (navigateCarousel direction st) = cropData st.
Proof. unfold navigateCarousel. by case_decide. Qed.

(** X7.  With the cursor on an item, next followed by previous, and
    previous followed by next, give back the state. *)
Theorem navigate_next_prev (st : State) :
  currentCarouselIndex st < length (selectedFiles st) ->
  navigateCarousel (-1) (navigateCarousel 1 st) = st /\
  navigateCarousel 1 (navigateCarousel (-1) st) = st.
Proof.
  intros Hc.
  destruct (decide (length (selectedFiles st) <= 1)) as [Hle|Hgt].
  { unfold navigateCarousel. repeat case_decide; done. }
  assert (Hn : 1 < length (selectedFiles st)) by lia.
  split; apply ReorderMore.state_eq.
  - rewrite (proj1 (navigate_files _ _)). apply navigate_files.
  - rewrite (proj2 (navigate_files _ _)). apply navigate_files.
  - apply Nat2Z.inj.
    rewrite navigate_cursor by (by rewrite (proj1 (navigate_files _ _))).
    rewrite (proj1 (navigate_files _ _)).
    rewrite navigate_cursor by done.
    repeat case_decide; lia.
  - rewrite (proj1 (navigate_files _ _)). apply navigate_files.
  - rewrite (proj2 (navigate_files _ _)). apply navigate_files.
  - apply Nat2Z.inj.
    rewrite navigate_cursor by (by rewrite (proj1 (navigate_files _ _))).
    rewrite (proj1 (navigate_files _ _)).
    rewrite navigate_cursor by done.
    repeat case_decide; lia.
Qed.

Lemma navigate_next_prev_witness :
  currentCarouselIndex Demo.a_b_c < length (selectedFiles Demo.a_b_c) /\
  navigateCarousel (-1) (navigateCarousel 1 Demo.a_b_c) = Demo.a_b_c.
Proof.
  assert (H : currentCarouselIndex Demo.a_b_c < length (selectedFiles Demo.a_b_c))
    by (simpl; lia).
  split; [exact H|].
  exact (proj1 (navigate_next_prev Demo.a_b_c H)).
Defined.

Lemma navigate_iter_cursor (k : nat) (st : State) :
  1 < length (selectedFiles st) ->
  currentCarouselIndex st < length (selectedFiles st) ->
  selectedFiles (Nat.iter k (navigateCarousel 1) st) = selectedFiles st /\
  cropData (Nat.iter k (navigateCarousel 1) st) = cropData st /\
  currentCarouselIndex (Nat.iter k (navigateCarousel 1) st)
  = (currentCarouselIndex st + k) mod length (selectedFiles st).
Proof.
  intros Hn Hc. induction k as [|k (IHf & IHc & IHk)]; simpl.
  - split; [done|]. split; [done|]. rewrite Nat.add_0_r.
    by rewrite Nat.mod_small.
  - destruct (navigate_files 1 (Nat.iter k (navigateCarousel 1) st)) as [-> ->].
    split; [done|]. split; [done|].
    apply Nat2Z.inj. rewrite navigate_cursor by (by rewrite IHf).
    rewrite IHf, IHk.
    set (n := length (selectedFiles st)) in *.
    set (c := currentCarouselIndex st) in *.
    assert (Hm : (c + k) mod n < n) by (apply Nat.mod_upper_bound; lia).
    replace (c + S k) with (S (c + k)) by lia.
    destruct (decide (S ((c + k) mod n) = n)) as [E|E].
    + assert (S (c + k) mod n = 0) as ->.
      { rewrite <- Nat.add_1_r, <- Nat.Div0.add_mod_idemp_l.
        rewrite Nat.add_1_r, E. apply Nat.Div0.mod_same. }
      repeat case_decide; lia.
    + assert (S (c + k) mod n = S ((c + k) mod n)) as ->.
      { rewrite <- Nat.add_1_r, <- Nat.Div0.add_mod_idemp_l.
        rewrite Nat.add_1_r. apply Nat.mod_small. lia. }
      repeat case_decide; lia.
Qed.

(** X8.  With the cursor on an item, pressing next as many times as
    there are files comes back to the same item, past the wrap from the
    last file to the first. *)
Theorem navigate_full_circle (st : State) :
  currentCarouselIndex st < length (selectedFiles st) ->
  Nat.iter (length (selectedFiles st)) (navigateCarousel 1) st = st.
Proof.
  intros Hc.
  destruct (decide (length (selectedFiles st) <= 1)) as [Hle|Hgt].
  { assert (Hid : forall k, Nat.iter k (navigateCarousel 1) st = st).
    { induction k as [|k IH]; simpl; [done|]. rewrite IH.
      unfold navigateCarousel. by case_decide. }
    apply Hid. }
  destruct (navigate_iter_cursor (length (selectedFiles st)) st) as (Hf & Hcd & Hk);
    [lia|done|].
  apply ReorderMore.state_eq; [done|done|]. rewrite Hk.
  rewrite <- Nat.Div0.add_mod_idemp_r, Nat.Div0.mod_same, Nat.add_0_r.
  by apply Nat.mod_small.
Qed.

Lemma navigate_full_circle_witness :
  currentCarouselIndex Demo.a_b_c < length (selectedFiles Demo.a_b_c) /\
  navigateCarousel 1 (navigateCarousel 1 (navigateCarousel 1 Demo.a_b_c))
  = Demo.a_b_c.
Proof.
  assert (H : currentCarouselIndex Demo.a_b_c < length (selectedFiles Demo.a_b_c))
    by (simpl; lia).
  split; [exact H|].
  exact (navigate_full_circle Demo.a_b_c H).
Defined.

(** X9.  With two files or more, navigateCarousel leaves the cursor on
    an item whatever it was before and whatever the direction, and changes
    neither the files nor the crop entries; a cursor past the end of the
    list goes to the first item on next. *)
Theorem navigate_repairs_cursor (direction : Z) (st : State) :
  1 < length (selectedFiles st) ->
  currentCarouselIndex (navigateCarousel direction st) < length (selectedFiles st) /\
  selectedFiles (navigateCarousel direction st) = selectedFiles st /\
  cropData (navigateCarousel direction st) = cropData st /\
  (length (selectedFiles st) <= currentCarouselIndex st -> (0 <= direction)%Z ->
   currentCarouselIndex (navigateCarousel direction st) = 0).
Proof.
  intros Hn. destruct (navigate_files direction st) as [Hf Hcd].
  split; [|split; [done|split; [done|]]].
  - apply Nat2Z.inj_lt. rewrite navigate_cursor by done. repeat case_decide; lia.
  - intros Hpast Hd. apply Nat2Z.inj. rewrite navigate_cursor by done.
    repeat case_decide; lia.
Qed.

Lemma navigate_repairs_cursor_witness :
  1 < length (selectedFiles (mkState [Demo.imgA; Demo.imgB] ∅ 5)) /\
  currentCarouselIndex (navigateCarousel (-1) (mkState [Demo.imgA; Demo.imgB] ∅ 5))
  < length (selectedFiles (mkState [Demo.imgA; Demo.imgB] ∅ 5)).
Proof.
  assert (H : 1 < length (selectedFiles (mkState [Demo.imgA; Demo.imgB] ∅ 5)))
    by (simpl; lia).
  split; [exact H|].
  exact (proj1 (navigate_repairs_cursor (-1) _ H)).
Defined.

End CarouselFacts.

(** ** Ingestion, once more *)
Module IngestMore.

Import Ingest IngestFacts.

(** X10.  The dimensions resizeImage computes never exceed those of the
    image: an image within 1080 x 1080 keeps its dimensions, and when a
    side is longer than 1080 the longer side of the result is exactly
    1080. *)
Theorem resize_dims_never_enlarges (w h : Q) :
  (0 < w)%Q -> (0 < h)%Q ->
  ((resize_dims w h).1 <= w)%Q /\ ((resize_dims w h).2 <= h)%Q /\
  ((w <= 1080)%Q -> (h <= 1080)%Q -> resize_dims w h = (w, h)) /\
  ((1080 < w)%Q \/ (1080 < h)%Q ->
   Qmax (resize_dims w h).1 (resize_dims w h).2 == 1080)%Q.
Proof.
  intros Hw Hh. unfold resize_dims, maxDimension.
  destruct (Qle_bool w h) eqn:Ewh; simpl.
  - apply Qle_bool_iff in Ewh.
    destruct (Qle_bool h 1080) eqn:Eh; simpl.
    + apply Qle_bool_iff in Eh. repeat split; try lra.
    + apply Qle_bool_false in Eh.
      assert (Hq : (w * 1080 / h <= w)%Q).
      { apply Qle_shift_div_r; [lra|]. nra. }
      assert (Hq2 : (w * 1080 / h <= 1080)%Q).
      { apply Qle_shift_div_r; [lra|]. nra. }
      repeat split; try lra.
      intros _. apply Q.max_r. exact Hq2.
  - apply Qle_bool_false in Ewh.
    destruct (Qle_bool w 1080) eqn:Ew; simpl.
    + apply Qle_bool_iff in Ew.
      destruct (Qle_bool h 1080) eqn:Eh; simpl.
      * repeat split; try lra.
      * apply Qle_bool_false in Eh. lra.
    + apply Qle_bool_false in Ew.
      assert (Hq : (h * 1080 / w <= h)%Q).
      { apply Qle_shift_div_r; [lra|]. nra. }
      assert (Hq2 : (h * 1080 / w <= 1080)%Q).
      { apply Qle_shift_div_r; [lra|]. nra. }
      repeat split; try lra.
      intros _. apply Q.max_l. exact Hq2.
Qed.

Lemma resize_dims_never_enlarges_witness :
  (0 < 4000)%Q /\ (0 < 3000)%Q /\
  (Qmax (fst (resize_dims 4000 3000)) (snd (resize_dims 4000 3000)) == 1080)%Q.
Proof.
  assert (Hw : (0 < 4000)%Q) by reflexivity.
  assert (Hh : (0 < 3000)%Q) by reflexivity.
  split; [exact Hw|]. split; [exact Hh|].
  destruct (resize_dims_never_enlarges 4000 3000 Hw Hh) as (_ & _ & _ & H).
  apply H. left. reflexivity.
Defined.

Section Browser.

Variable decode : File -> option (Z * Z).
Variable toBlob : Payload -> Z -> Z -> DrawCall -> string -> Q -> option Z.

Lemma process_one_result (f : File) :
  fst (process_one decode toBlob f) = f \/
  exists cw ch d sz,
    fst (process_one decode toBlob f)
    = mkFile (name f) (type f) sz (Encoded (payload f) cw ch d (type f) 0.9%Q).
Proof.
  unfold process_one, processImage, resizeImage.
  destruct (String.prefix "image/" (type f)); [|by left].
  case_decide; [|by left].
  destruct (decode f) as [[w h]|]; [|by left].
  destruct (resize_dims (inject_Z w) (inject_Z h)) as [width height].
  destruct (toBlob _ _ _ _ _ _) as [sz|]; [|by left].
  right. simpl. eauto.
Qed.

Lemma process_one_events (f : File) :
  forall ev, ev ∈ snd (process_one decode toBlob f) ->
    ev = ConsoleError "Failed to process image:" \/
    exists message, ev = Toast message "info".
Proof.
  intros ev. unfold process_one.
  destruct (String.prefix "image/" (type f)); [|by intros ?%elem_of_nil].
  destruct (processImage decode toBlob f) as [g|e]; simpl.
  - case_decide; [by intros ?%elem_of_nil|].
    intros ->%list_elem_of_singleton. right. eauto.
  - intros ->%list_elem_of_singleton. by left.
Qed.

Lemma process_all_events (files : list File) :
  forall ev, ev ∈ snd (process_all decode toBlob files) ->
    ev = ConsoleError "Failed to process image:" \/
    exists message, ev = Toast message "info".
Proof.
  induction files as [|f files IH]; simpl; [by intros ev ?%elem_of_nil|].
  intros ev.
  pose proof (process_one_events f) as H1.
  destruct (process_one decode toBlob f) as [one e1].
  destruct (process_all decode toBlob files) as [more evs]. simpl in *.
  intros [?|?]%elem_of_app; auto.
Qed.

(** X11.  An accepted batch comes out file for file and in order: the
    selection has as many files as were chosen, and the file at each
    position has the name and type of the chosen one and is either the
    chosen file itself or its re-encoding at quality 0.9. *)
Theorem accepted_files_are_originals_or_reencodings (files : list File) (st : State) :
  length files <= 20 ->
  let st' := fst (handleMediaSelect decode toBlob files st) in
  length (selectedFiles st') = length files /\
  forall i f, files !! i = Some f ->
    exists g, selectedFiles st' !! i = Some g /\
      name g = name f /\ type g = type f /\
      (g = f \/
       exists cw ch d sz,
         g = mkFile (name f) (type f) sz
               (Encoded (payload f) cw ch d (type f) 0.9%Q)).
Proof.
  intros Hlen st'. subst st'.
  rewrite handleMediaSelect_accepts by done. simpl.
  rewrite process_all_fst. split; [apply length_map|].
  intros i f Hf. rewrite list_lookup_fmap, Hf. simpl.
  eexists. split; [done|].
  destruct (process_one_result f) as [->|(cw & ch & d & sz & ->)].
  - repeat split. by left.
  - simpl. repeat split. right. eauto.
Qed.


(** X13.  When an image above 8 MiB cannot be read or decoded,
    processImage rejects and handleMediaSelect pushes the file as it was
    chosen, with a console message and no toast. *)
Theorem decode_failure_falls_back (file : File) :
  String.prefix "image/" (type file) = true ->
  (MAX_FILE_SIZE < size file)%Z ->
  decode file = None ->
  processImage decode toBlob file = Rejected LoadFailed /\
  process_one decode toBlob file = (file, [ConsoleError "Failed to process image:"]).
Proof.
  intros Hty Hsz Hdec.
  assert (Hp : processImage decode toBlob file = Rejected LoadFailed).
  { unfold processImage, resizeImage. case_decide; [|lia]. by rewrite Hdec. }
  split; [done|]. unfold process_one. by rewrite Hty, Hp.
Qed.

End Browser.

Lemma accepted_files_are_originals_or_reencodings_witness :
  length [Demo.imgA; Demo.big] <= 20 /\
  length (selectedFiles
            (fst (handleMediaSelect Demo.decode_4000x3000 Demo.blob_600000
                    [Demo.imgA; Demo.big] Demo.a_b_c))) = 2.
Proof.
  assert (H : length [Demo.imgA; Demo.big] <= 20) by (simpl; lia).
  split; [exact H|].
  exact (proj1 (accepted_files_are_originals_or_reencodings
                  Demo.decode_4000x3000 Demo.blob_600000
                  [Demo.imgA; Demo.big] Demo.a_b_c H)).
Defined.


Lemma decode_failure_falls_back_witness :
  String.prefix "image/" (type Demo.big) = true /\
  (MAX_FILE_SIZE < size Demo.big)%Z /\
  Demo.no_decode Demo.big = None /\
  process_one Demo.no_decode Demo.blob_600000 Demo.big
  = (Demo.big, [ConsoleError "Failed to process image:"]).
Proof.
  split; [reflexivity|]. split; [reflexivity|]. split; [reflexivity|].
  refine (proj2 (decode_failure_falls_back Demo.no_decode Demo.blob_600000
                   Demo.big _ _ _)); reflexivity.
Defined.

End IngestMore.

(** ** The schedule and the form *)
Module ScheduleFacts.

Import Schedule.

Lemma closestPeriod_cases (hour : Z) :
  (closestPeriod hour = "morning" /\ (hour <= 10)%Z) \/
  (closestPeriod hour = "afternoon" /\ (11 <= hour <= 14)%Z) \/
  (closestPeriod hour = "evening" /\ (15 <= hour <= 18)%Z) \/
  (closestPeriod hour = "night" /\ (19 <= hour)%Z).
Proof.
  unfold closestPeriod, times. cbn [fold_left closer fst snd].
  repeat (case_decide; cbn [fst snd]).
  all: try (left; split; [reflexivity|lia]).
  all: try (right; left; split; [reflexivity|lia]).
  all: try (right; right; left; split; [reflexivity|lia]).
  all: try (right; right; right; split; [reflexivity|lia]).
  all: try (exfalso; lia).
Qed.

(** X14.  For a time typed by hand, handleManualDateTimeChange picks the
    period of the table whose hour is nearest to the hour typed; and the
    hour getScheduledDateTime sets for a period is mapped back to that
    period. *)
Theorem closestPeriod_is_nearest (hour : Z) :
  exists h, (closestPeriod hour, h) ∈ times /\
    period_hour (closestPeriod hour) = Some h /\
    (forall p' h', (p', h') ∈ times -> (Z.abs (hour - h) <= Z.abs (hour - h'))%Z) /\
    (forall p h0, (p, h0) ∈ times -> closestPeriod h0 = p).
Proof.
  assert (Hmem : forall p' h', (p', h') ∈ times ->
            (p', h') = ("morning", 9%Z) \/ (p', h') = ("afternoon", 12%Z) \/
            (p', h') = ("evening", 17%Z) \/ (p', h') = ("night", 20%Z)).
  { intros p' h' H. unfold times in H.
    repeat (apply elem_of_cons in H as [H|H]; [auto|]).
    by apply elem_of_nil in H. }
  assert (Hback : forall p h0, (p, h0) ∈ times -> closestPeriod h0 = p).
  { intros p h0 H.
    destruct (Hmem p h0 H) as [E|[E|[E|E]]]; simplify_eq; reflexivity. }
  destruct (closestPeriod_cases hour) as [[E Hh]|[[E Hh]|[[E Hh]|[E Hh]]]];
    rewrite E;
    [exists 9%Z|exists 12%Z|exists 17%Z|exists 20%Z].
  all: split; [unfold times; repeat (first [by left | right])|].
  all: split; [reflexivity|].
  all: split; [|done].
  all: intros p' h' H.
  all: destruct (Hmem p' h' H) as [E'|[E'|[E'|E']]]; simplify_eq; lia.
Qed.

End ScheduleFacts.

Module FormFacts.

Import Form.

Section Browser.

Variable toBlob : Payload -> Z -> Z -> DrawCall -> string -> Q -> option Z.

Lemma media_part_name (st : State) (i : nat) (f : File) :
  name (Submit.media_part toBlob st i f) = name f /\
  (has_crop (cropData st) i = None -> Submit.media_part toBlob st i f = f) /\
  (is_Some (has_crop (cropData st) i) ->
   type (Submit.media_part toBlob st i f) = "image/jpeg").
Proof.
  unfold Submit.media_part.
  destruct (has_crop (cropData st) i) as [c|].
  - unfold Submit.file_of_blob.
    destruct (Submit.applyCropToFile toBlob f c) as [[sz p]|]; simpl;
      (split; [done|split; [done|done]]).
  - split; [done|]. split; [done|]. by intros [? ?].
Qed.

(** X15.  handleCreatePost sends nothing for an empty selection, and
    nothing when no time was typed and the calendar has no day or no
    period.  What it sends has one media part per selected file, in order
    and under the name of the file, and a file without a committed crop is
    sent as it is. *)
Theorem handleCreatePost_sends_every_file
    (caption scheduledTimeInput : string) (selectedDate : option string)
    (timePeriod status aspectRatio customAspectRatio : string) (st : State) :
  let r := handleCreatePost toBlob caption scheduledTimeInput selectedDate
             timePeriod status aspectRatio customAspectRatio st in
  (selectedFiles st = [] -> r = Refused "Please select at least one image") /\
  (selectedFiles st <> [] -> scheduledTimeInput = "" ->
   (selectedDate = None \/ timePeriod = "") ->
   r = Refused "Please select a date and time") /\
  (forall p, r = Sent p ->
     selectedFiles st <> [] /\
     length (media p) = length (selectedFiles st) /\
     forall i f, selectedFiles st !! i = Some f ->
       exists g, media p !! i = Some g /\ name g = name f /\
         (has_crop (cropData st) i = None -> g = f)).
Proof.
  intros r. subst r. unfold handleCreatePost.
  split; [|split].
  - intros ->. reflexivity.
  - intros Hne -> Hno. case_decide.
    + destruct (selectedFiles st); [done|simpl in *; lia].
    + simpl. destruct Hno as [->| ->]; [done|]. by destruct selectedDate.
  - intros p. case_decide as Hlen; [done|].
    destruct (if truthy scheduledTimeInput then _ else _) as [w|]; [|done].
    intros [= <-]. simpl.
    split; [intros E; apply Hlen; by rewrite E|].
    unfold Submit.handleCreatePost_media.
    split; [apply length_imap|].
    intros i f Hf. rewrite list_lookup_imap, Hf. simpl.
    eexists. split; [done|].
    destruct (media_part_name st i f) as (Hn & Hu & _). by split.
Qed.

End Browser.

End FormFacts.

(** ** The crop modal, once more *)
Module CropModalMore.

Import Preview CropModal PreviewFacts Binary64 Binary64Facts.
Local Open Scope Q_scope.

Ltac closed_q := first [reflexivity | discriminate | (vm_compute; discriminate)].

(** X16.  The box openCropModal starts from, for an item without a
    crop, spans the full height or the full width of the displayed image,
    has positive sides, has the target ratio to within one part in
    [2 ^ 52] and exceeds neither side of the image by more than one part
    in [2 ^ 51]. *)
Theorem default_box_fits_within_rounding (lay : Layout) (r : Q) :
  ordinary (displayWidth lay) -> ordinary (displayHeight lay) -> ordinary r ->
  let W := displayWidth lay in
  let H := displayHeight lay in
  let b := OpenModal.default_box lay r in
  ((height b = H /\ width b = fmul H r) \/ (width b = W /\ height b = fdiv W r)) /\
  0 < width b /\ 0 < height b /\
  width b * 2 ^ 51 <= W * (2 ^ 51 + 1) /\
  height b * 2 ^ 51 <= H * (2 ^ 51 + 1) /\
  Qabs (width b - height b * r) * 2 ^ 52 <= width b.
Proof.
  intros HW HH Hr W H b.
  destruct (ordinary_quotient W r HW Hr) as (HW0 & Hr0 & _).
  destruct (ordinary_quotient H r HH Hr) as (HH0 & _).
  destruct (product_near H r HH Hr) as [Hp1 Hp2].
  destruct (quotient_near W r HW Hr) as [Hq1 Hq2].
  destruct (quotient_near W H HW HH) as [Ha1 Ha2].
  assert (EW : W / r * r == W) by (field; lra).
  assert (EH : W / H * H == W) by (field; lra).
  change (1 # 2 ^ 53) with (1 # 9007199254740992) in *.
  change (2 ^ 51) with (2251799813685248 # 1).
  change (2 ^ 52) with (4503599627370496 # 1).
  subst b. unfold OpenModal.default_box. fold W H.
  set (p := fmul H r) in *. set (q := fdiv W r) in *. set (a := fdiv W H) in *.
  set (y := W / r) in *. set (z := W / H) in *.
  destruct (Qle_bool a r) eqn:E; cbn [negb width height].
  - apply Qle_bool_iff in E.
    split; [by right|].
    assert (Hd : Qabs (W - q * r) <= W * (1 # 4503599627370496)).
    { apply Qabs_Qle_condition. clearbody p q a y z W H. split; nra. }
    set (d := Qabs (W - q * r)) in *.
    clearbody p q a y z W H d. repeat split; nra.
  - apply IngestFacts.Qle_bool_false in E.
    split; [by left|].
    assert (Hd : Qabs (p - H * r) <= p * (1 # 4503599627370496)).
    { apply Qabs_Qle_condition. clearbody p q a y z W H. split; nra. }
    set (d := Qabs (p - H * r)) in *.
    clearbody p q a y z W H d. repeat split; nra.
Qed.

Lemma default_box_fits_within_rounding_witness :
  ordinary 400 /\ ordinary 200 /\ ordinary 1 /\
  width (OpenModal.default_box Demo.lay 1) * 2 ^ 51 <= 400 * (2 ^ 51 + 1).
Proof.
  assert (H1 : ordinary 400) by (split; vm_compute; discriminate).
  assert (H2 : ordinary 200) by (split; vm_compute; discriminate).
  assert (H3 : ordinary 1) by (split; vm_compute; discriminate).
  split; [exact H1|]. split; [exact H2|]. split; [exact H3|].
  exact (proj1 (proj2 (proj2 (proj2
    (default_box_fits_within_rounding Demo.lay 1 H1 H2 H3))))).
Defined.

(** The box can exceed the image by a rounding: under the ratio of a
    307 x 450 image itself it is higher than the image and starts above
    it. *)
Lemma default_box_exceeds_the_image :
  let lay := mkLayout 0 0 307 450 in
  let b := OpenModal.default_box lay (fdiv 307 450) in
  width b == 307 /\ height b == 450 + 1 / 2 ^ 44 /\ y b == - (1 / 2 ^ 45).
Proof. vm_compute. done. Qed.



(** The last two clamps of the resize branch, at the right and at the
    bottom edge, leave no negative side when the corner is left of the
    right edge and above the bottom edge. *)
Lemma last_two_clamps (r X Y W H right bottom : Q) :
  0 < r -> 0 <= W -> 0 <= H -> X <= right -> Y <= bottom ->
  let '(W1, H1) :=
    if negb (Qle_bool (X + W) right) then (right - X, (right - X) / r) else (W, H) in
  let '(W2, H2) :=
    if negb (Qle_bool (Y + H1) bottom) then ((bottom - Y) * r, bottom - Y)
    else (W1, H1) in
  0 <= W2 /\ 0 <= H2.
Proof.
  intros Hr HW HH HX HY.
  assert (Hp : 0 <= (right - X) / r) by (apply Qle_shift_div_l; lra).
  assert (Hq : 0 <= (bottom - Y) * r) by (apply Qmult_le_0_compat; lra).
  destruct (Qle_bool (X + W) right); simpl.
  - destruct (Qle_bool (Y + H) bottom); simpl; split; lra.
  - destruct (Qle_bool (Y + (right - X) / r) bottom); simpl; split; lra.
Qed.



End CropModalMore.

(** ** The preview, once more *)
Module PreviewMore.

Import Preview PreviewFacts Binary64 Binary64Facts.
Local Open Scope Q_scope.

(** The two clamping lines, for a side of the box that fits the side
    of the image. *)
Lemma clamp_signs (lo w total : Q) (N : Z) :
  (- 2 ^ 53 <= N <= 2 ^ 53)%Z -> total = inject_Z N -> 0 < w -> w <= total ->
  let pos := Qmax 0 (Qmin lo (fsub total w)) in
  let cut := Qmin w (fsub total pos) in
  0 <= pos /\ pos <= total /\ 0 <= cut /\ cut <= w.
Proof.
  intros HN -> Hw Hle pos cut.
  assert (H1 : 0 <= fsub (inject_Z N) w) by (apply fl_nonneg; lra).
  assert (H2 : fsub (inject_Z N) w <= inject_Z N) by (apply fl_le_int; [exact HN|lra]).
  assert (Hpos : 0 <= pos /\ pos <= inject_Z N).
  { subst pos. split_minmax; split; lra. }
  destruct Hpos as [Hp0 Hp1].
  assert (H3 : 0 <= fsub (inject_Z N) pos) by (apply fl_nonneg; lra).
  split; [exact Hp0|]. split; [exact Hp1|].
  subst cut. clearbody pos. split_minmax; split; lra.
Qed.

(** X22.  For an image of [W] x [H] pixels, [W] and [H] integers below
    [2 ^ 53], and a stored window no wider and no higher than it, the recomputation ends in its first or
    its second case, never in the one commented Scale down; the box it
    derives has positive sides and is no wider and no higher than the
    image, and the rectangle drawn starts inside the image and has sides
    between zero and those of the box. *)
Theorem fitting_window_is_not_scaled_down (W H : Z) (r : Q) (c : CropEntry) :
  (0 < W < 2 ^ 53)%Z -> (0 < H < 2 ^ 53)%Z ->
  ordinary r -> ordinary (boxWidth c) -> ordinary (boxHeight c) ->
  boxWidth c <= inject_Z W -> boxHeight c <= inject_Z H ->
  let box := Render.box_for_ratio (inject_Z W) (inject_Z H) r (boxWidth c) (boxHeight c) in
  let R := Render.clamped_rect (inject_Z W) (inject_Z H) r c in
  (fmul (boxHeight c) r <= inject_Z W \/ fdiv (boxWidth c) r <= inject_Z H) /\
  (box = (fmul (boxHeight c) r, boxHeight c) \/
   box = (boxWidth c, fdiv (boxWidth c) r)) /\
  (0 < fst box /\ fst box <= inject_Z W) /\
  (0 < snd box /\ snd box <= inject_Z H) /\
  (0 <= rx R /\ rx R <= inject_Z W) /\
  (0 <= ry R /\ ry R <= inject_Z H) /\
  (0 <= rw R /\ rw R <= fst box) /\
  (0 <= rh R /\ rh R <= snd box).
Proof.
  intros HW HH Hr Hbw Hbh Hw Hh box R.
  destruct (div_then_mul (boxWidth c) r Hbw Hr) as [Hq0 _].
  destruct (mul_then_div (boxHeight c) r Hbh Hr) as [Hp0 _].
  destruct (ordinary_quotient (boxWidth c) r Hbw Hr) as (Hw0 & Hr0 & _).
  destruct (ordinary_quotient (boxHeight c) r Hbh Hr) as (Hh0 & _).
  assert (HWr : (- 2 ^ 53 <= W <= 2 ^ 53)%Z) by lia.
  assert (HHr : (- 2 ^ 53 <= H <= 2 ^ 53)%Z) by lia.
  assert (Hcase : fmul (boxHeight c) r <= inject_Z W \/ fdiv (boxWidth c) r <= inject_Z H).
  { destruct (Qlt_le_dec (inject_Z W) (boxHeight c * r)) as [Hbig|Hfit].
    - right. apply fl_le_int; [exact HHr|].
      apply Qle_shift_div_r; [exact Hr0|].
      set (bw := boxWidth c) in *. set (bh := boxHeight c) in *.
      set (iw := inject_Z W) in *. set (ih := inject_Z H) in *.
      clearbody bw bh iw ih. nra.
    - left. apply fl_le_int; [exact HWr|exact Hfit]. }
  assert (Hbox : (box = (fmul (boxHeight c) r, boxHeight c) \/
                  box = (boxWidth c, fdiv (boxWidth c) r)) /\
                 (0 < fst box /\ fst box <= inject_Z W) /\
                 (0 < snd box /\ snd box <= inject_Z H)).
  { subst box. unfold Render.box_for_ratio.
    destruct (Qle_bool (fmul (boxHeight c) r) (inject_Z W)) eqn:E1.
    - apply Qle_bool_iff in E1. cbn [fst snd]. repeat split; auto.
    - destruct (Qle_bool (fdiv (boxWidth c) r) (inject_Z H)) eqn:E2.
      + apply Qle_bool_iff in E2. cbn [fst snd]. repeat split; auto.
      + exfalso. destruct Hcase as [Hc|Hc]; apply Qle_bool_iff in Hc; congruence. }
  destruct Hbox as (Hforms & [Hw1 Hw2] & [Hh1 Hh2]).
  split; [exact Hcase|]. split; [exact Hforms|].
  split; [by split|]. split; [by split|].
  subst R. unfold Render.clamped_rect. fold box.
  destruct box as [w h]. cbn [fst snd] in *. cbn [rx ry rw rh].
  destruct (clamp_signs (fsub (centerX c) (fdiv w 2)) w (inject_Z W) W HWr eq_refl Hw1 Hw2)
    as (? & ? & ? & ?).
  destruct (clamp_signs (fsub (centerY c) (fdiv h 2)) h (inject_Z H) H HHr eq_refl Hh1 Hh2)
    as (? & ? & ? & ?).
  repeat split; assumption.
Qed.

Lemma fitting_window_is_not_scaled_down_witness :
  ordinary 1 /\ boxWidth Demo.cropA <= inject_Z 2000 /\
  boxHeight Demo.cropA <= inject_Z 1500 /\
  snd (Render.box_for_ratio (inject_Z 2000) (inject_Z 1500) 1
         (boxWidth Demo.cropA) (boxHeight Demo.cropA)) <= inject_Z 1500.
Proof.
  assert (H1 : ordinary 1) by (split; vm_compute; discriminate).
  assert (Hw : boxWidth Demo.cropA <= inject_Z 2000) by discriminate.
  assert (Hh : boxHeight Demo.cropA <= inject_Z 1500) by discriminate.
  split; [exact H1|]. split; [exact Hw|]. split; [exact Hh|].
  refine (proj2 (proj1 (proj2 (proj2 (proj2
    (fitting_window_is_not_scaled_down 2000 1500 1 Demo.cropA _ _ H1 _ _ Hw Hh))))));
    try (split; vm_compute; discriminate).
  all: split; reflexivity.
Defined.



End PreviewMore.
